(** * ARC evaluation harness: grid codec, prompt builder, scorer and driver

    A shallow embedding of [evaluate_deepseek.py] (class [ARCEvaluator]).

    - A Python [str] is the list of its Unicode code points ([N]).
    - A Python [int] is a [Z]; a grid is a list of rows of [Z].
    - The interpreter's Unicode tables ([str.isdigit], [str.isspace] and the
      decimal value [int()] gives to a character) are not part of the
      program: they are the fields of the class [Unicode], together with the
      facts about them the proofs rely on.  [latin1] is the table of the
      code points below 256.
    - An exception is a value of [result]; [try: ... except:] is
      [try_except]. *)

From Stdlib Require Import String Ascii List Sorted ZArith NArith Bool Lia.
Import ListNotations.

Local Open Scope Z_scope.

(** ** Python values *)

Definition str := list N.
Definition row := list Z.
Definition grid := list row.

(** Code points of a literal. *)
Fixpoint lit (s : string) : str :=
  match s with
  | EmptyString => []
  | String a s' => N_of_ascii a :: lit s'
  end.

Definition LF : N := 10%N.
Definition SPACE : N := 32%N.
Definition MINUS : N := 45%N.
Definition ZERO : N := 48%N.

(** ** Exceptions *)

Inductive exn : Type := ValueError.

Inductive result (A : Type) : Type :=
| Ok (a : A)
| Raise (e : exn).
Arguments Ok {A} a.
Arguments Raise {A} e.

Definition bind {A B : Type} (m : result A) (k : A -> result B) : result B :=
  match m with
  | Ok a => k a
  | Raise e => Raise e
  end.

Notation "x <- m ;; k" := (bind m (fun x => k))
  (at level 61, m at next level, right associativity).
Notation "' pat <- m ;; k" := (bind m (fun pat => k))
  (at level 61, pat pattern, m at next level, right associativity).

(** [try: body  except: handler] with a bare [except]. *)
Definition try_except {A : Type} (body : result A) (handler : exn -> result A)
  : result A :=
  match body with
  | Ok a => Ok a
  | Raise e => handler e
  end.

(** ** The interpreter's character tables *)

Class Unicode : Type := {
  (** [c.isdigit()] *)
  isdigit : N -> bool;
  (** [c.isspace()]; [str.split()] without argument cuts at the same
      characters *)
  isspace : N -> bool;
  (** the value [int()] reads for a decimal character, [None] for a
      character [int()] rejects *)
  decimal : N -> option Z;
  decimal_ascii : forall d, 0 <= d <= 9 -> decimal (ZERO + Z.to_N d) = Some d;
  decimal_isdigit : forall c d, decimal c = Some d -> isdigit c = true;
  decimal_range : forall c d, decimal c = Some d -> 0 <= d <= 9;
  isdigit_not_isspace : forall c, isdigit c = true -> isspace c = false;
  isspace_SPACE : isspace SPACE = true;
  isspace_LF : isspace LF = true
}.

(** ** String operations of the interpreter used by the program *)

(** [sep.join(parts)] *)
Fixpoint join (sep : str) (parts : list str) : str :=
  match parts with
  | [] => []
  | p :: ps =>
      match ps with
      | [] => p
      | _ :: _ => p ++ sep ++ join sep ps
      end
  end.

(** [s.split('\n')]: the pieces between line feeds, at least one piece. *)
Fixpoint split_lines (s : str) : list str :=
  match s with
  | [] => [[]]
  | c :: s' =>
      if (c =? LF)%N then [] :: split_lines s'
      else match split_lines s' with
           | [] => [[c]]
           | l :: ls => (c :: l) :: ls
           end
  end.

(** [str(n)] for [n >= 0]: the decimal numeral, most significant digit
    first.  [fuel] bounds the number of divisions by ten. *)
Fixpoint digits_of (fuel : nat) (n : Z) (acc : str) : str :=
  let acc' := (ZERO + Z.to_N (n mod 10))%N :: acc in
  match fuel with
  | O => acc'
  | S fuel' => if n <? 10 then acc' else digits_of fuel' (n / 10) acc'
  end.

Definition str_nat (n : Z) : str := digits_of (Z.to_nat (Z.log2 n)) n [].

(** [str(z)] on an [int].  The conversion is modelled as exact at every
    size: the interpreter's limit on the length of the numerals it converts
    (none, or a number of digits that is at least 640, 4300 unless set
    otherwise) is not part of the model.  The statements in which a longer
    numeral could be converted bound the numerals they speak of by
    [safe_digits]. *)
Definition str_int (z : Z) : str :=
  if z <? 0 then MINUS :: str_nat (- z) else str_nat z.

(** ** Tasks *)

(** An [{'input': ..., 'output': ...}] object: a training example or a
    test case. *)
Module Pair.
Record t : Type := { input : grid; output : grid }.
End Pair.

Module Task.
Record t : Type := { train : list Pair.t; test : list Pair.t }.
End Task.

(** ** Grid codec: encoding *)

(** [format_grid]: rows joined by a line feed, values by a space. *)
Definition format_grid (g : grid) : str :=
  join [LF] (map (fun r => join [SPACE] (map str_int r)) g).

(** ** Prompt builder *)

Definition prompt_head : str :=
  lit "You are an expert at solving abstract reasoning challenges. Your task is to analyze patterns in grids and generate the correct output grid."
  ++ [LF; LF] ++ lit "Given these training examples:" ++ [LF; LF].

(** The loop over [enumerate(task['train'], 1)]: [prompt] is the text so
    far and [idx] the label of the next example. *)
Fixpoint add_examples (prompt : str) (idx : Z) (examples : list Pair.t) : str :=
  match examples with
  | [] => prompt
  | example :: rest =>
      let prompt1 :=
        prompt ++ lit "Example " ++ str_int idx ++ lit ":" ++ [LF]
               ++ lit "Input Grid:" ++ [LF]
               ++ format_grid (Pair.input example) ++ [LF] in
      let prompt2 :=
        prompt1 ++ lit "Output Grid:" ++ [LF]
                ++ format_grid (Pair.output example) ++ [LF; LF] in
      add_examples prompt2 (idx + 1) rest
  end.

Definition prompt_rules : str :=
  lit "Rules:" ++ [LF]
  ++ lit "1. Analyze the pattern in the training examples" ++ [LF]
  ++ lit "2. Apply the same pattern to the new input" ++ [LF]
  ++ lit "3. Respond with ONLY the output grid using space-separated numbers and newlines" ++ [LF]
  ++ lit "4. Each number should be between 0-9" ++ [LF]
  ++ lit "5. Ensure the dimensions match the pattern from examples" ++ [LF; LF]
  ++ lit "Output Grid:".

Definition create_prompt (task : Task.t) (test_input : grid) : str :=
  let prompt := add_examples prompt_head 1 (Task.train task) in
  let prompt :=
    prompt ++ lit "Now, given this new input grid:" ++ [LF]
           ++ format_grid test_input ++ [LF; LF] in
  prompt ++ prompt_rules.

Section Codec.
Context {U : Unicode}.

(** [s.split()]: the maximal runs of non-blank characters.  [cur] is the
    run being read, last character first. *)
Fixpoint split_ws_from (cur : str) (s : str) : list str :=
  match s with
  | [] => match cur with [] => [] | _ :: _ => [rev cur] end
  | c :: s' =>
      if isspace c
      then match cur with
           | [] => split_ws_from [] s'
           | _ :: _ => rev cur :: split_ws_from [] s'
           end
      else split_ws_from (c :: cur) s'
  end.

Definition split_ws (s : str) : list str := split_ws_from [] s.

(** [int(tok)] on a token without sign, blank or underscore (the tokens of
    a cleaned line): every character must be a decimal.  As for [str_int],
    the interpreter's limit on the length of a numeral is not part of the
    model. *)
Fixpoint int_digits (acc : Z) (tok : str) : result Z :=
  match tok with
  | [] => Ok acc
  | c :: tok' =>
      match decimal c with
      | Some d => int_digits (10 * acc + d) tok'
      | None => Raise ValueError
      end
  end.

Definition py_int (tok : str) : result Z :=
  match tok with
  | [] => Raise ValueError
  | _ :: _ => int_digits 0 tok
  end.

(** ** Grid codec: decoding *)

(** [any(c.isdigit() for c in line)] *)
Definition has_digit (line : str) : bool := existsb isdigit line.

(** The first loop of [parse_model_output]; [lines] is the list built so
    far, [todo] what is left of [output.split('\n')]. *)
Fixpoint collect_lines (lines : list str) (todo : list str) : list str :=
  match todo with
  | [] => lines
  | line :: todo' =>
      if has_digit line then collect_lines (lines ++ [line]) todo'
      else match lines with
           | _ :: _ => lines               (* break *)
           | [] => collect_lines lines todo'
           end
  end.

(** [''.join(c for c in line if c.isdigit() or c.isspace())] *)
Definition cleaned_line (line : str) : str :=
  filter (fun c => isdigit c || isspace c) line.

(** [[int(num) for num in toks]]: the first failing conversion raises. *)
Fixpoint ints_of (toks : list str) : result row :=
  match toks with
  | [] => Ok []
  | num :: toks' =>
      v <- py_int num ;;
      vs <- ints_of toks' ;;
      Ok (v :: vs)
  end.

Definition row_of_line (line : str) : result row :=
  ints_of (split_ws (cleaned_line line)).

(** The second loop of [parse_model_output]; [g] is the grid built so far. *)
Fixpoint build_grid (g : grid) (lines : list str) : result grid :=
  match lines with
  | [] => Ok g
  | line :: lines' =>
      r <- row_of_line line ;;
      build_grid (match r with [] => g | _ :: _ => g ++ [r] end) lines'
  end.

(** The body of the [try]. *)
Definition parse_body (output : str) : result grid :=
  build_grid [] (collect_lines [] (split_lines output)).

Definition parse_model_output (output : str) : result grid :=
  try_except (parse_body output) (fun _ => Ok []).

End Codec.

(** ** Scorer *)

Definition is_nil {A : Type} (l : list A) : bool :=
  match l with [] => true | _ :: _ => false end.

(** [a != b] on lists of [int]. *)
Definition row_neq (a b : row) : bool :=
  if list_eq_dec Z.eq_dec a b then false else true.

(** The loop of [evaluate_task] over [zip(model_output, expected_output)]. *)
Fixpoint compare_rows (zs : list (row * row)) : bool :=
  match zs with
  | [] => true
  | (row_model, row_expected) :: zs' =>
      if negb (length row_model =? length row_expected)%nat then false
      else if row_neq row_model row_expected then false
      else compare_rows zs'
  end.

(** [evaluate_task]; the [task] argument is not read. *)
Definition evaluate_task (task : Task.t) (model_output expected_output : grid)
  : bool :=
  if is_nil model_output
     || negb (length model_output =? length expected_output)%nat
  then false
  else compare_rows (combine model_output expected_output).

(** ** Evaluation driver *)

(** What one call of the model collaborator does. *)
Inductive call_outcome : Type :=
| Content (text : str)     (* [response['message']['content']] *)
| TimedOut                 (* [asyncio.TimeoutError] *)
| Failed.                  (* any other [Exception] *)

(** [call_model_with_timeout]: both handlers return the empty string. *)
Definition call_model_with_timeout (chat : str -> call_outcome) (prompt : str)
  : str :=
  match chat prompt with
  | Content text => text
  | TimedOut => []
  | Failed => []
  end.

Module Detail.
Record t : Type := {
  test_case : Z;
  correct : bool;
  model_output : grid;
  expected_output : grid
}.
End Detail.

Module TaskResult.
Record t : Type := {
  task_id : str;
  correct : Z;
  total : Z;
  details : list Detail.t
}.
End TaskResult.

Module Results.
Record t : Type := {
  correct : Z;
  total : Z;
  tasks : list TaskResult.t
}.
End Results.

(** What the run leaves outside its return value: the number of model
    calls made, and the successive contents written to
    [evaluation_results_partial.json]. *)
Record world : Type := {
  calls : nat;
  partial_file : list Results.t
}.

(** [bool(num_tasks)] *)
Definition truthy (num_tasks : option Z) : bool :=
  match num_tasks with
  | None => false
  | Some n => negb (n =? 0)
  end.

(** [l[:n]]; a negative [n] counts from the end. *)
Definition slice_to {A : Type} (l : list A) (n : Z) : list A :=
  if 0 <=? n then firstn (Z.to_nat n) l
  else firstn (length l - Z.to_nat (- n)) l.

Section Driver.
Context {U : Unicode}.

(** The files: their type, [task_path.stem] and what [load_task] reads.
    Every discovered file is taken to load as a task: a run in which
    [json.load] or a missing key raises is not described. *)
Variable path : Type.
Variable stem : path -> str.
Variable load_task : path -> Task.t.

(** The model collaborator: the answer of the [n]-th call of the run. *)
Variable chat : nat -> str -> call_outcome.

(** The loop over [enumerate(task['test'])]. *)
Fixpoint run_test_cases (task : Task.t) (n : nat) (task_result : TaskResult.t)
    (test_idx : Z) (cases : list Pair.t) : result (nat * TaskResult.t) :=
  match cases with
  | [] => Ok (n, task_result)
  | test_case :: rest =>
      let prompt := create_prompt task (Pair.input test_case) in
      let model_response := call_model_with_timeout (chat n) prompt in
      if is_nil model_response
      then run_test_cases task (S n) task_result (test_idx + 1) rest
      else
        parsed_output <- parse_model_output model_response ;;
        let is_correct :=
          evaluate_task task parsed_output (Pair.output test_case) in
        let detail := {|
          Detail.test_case := test_idx + 1;
          Detail.correct := is_correct;
          Detail.model_output := parsed_output;
          Detail.expected_output := Pair.output test_case |} in
        let task_result' := {|
          TaskResult.task_id := TaskResult.task_id task_result;
          TaskResult.correct :=
            if is_correct then TaskResult.correct task_result + 1
            else TaskResult.correct task_result;
          TaskResult.total := TaskResult.total task_result;
          TaskResult.details := TaskResult.details task_result ++ [detail] |} in
        run_test_cases task (S n) task_result' (test_idx + 1) rest
  end.

(** One iteration of the loop over [eval_files]. *)
Definition run_task (w : world) (results : Results.t) (task_path : path)
  : result (Results.t * world) :=
  let task := load_task task_path in
  let task_result := {|
    TaskResult.task_id := stem task_path;
    TaskResult.correct := 0;
    TaskResult.total := Z.of_nat (length (Task.test task));
    TaskResult.details := [] |} in
  '(n, task_result) <-
     run_test_cases task (calls w) task_result 0 (Task.test task) ;;
  let results' := {|
    Results.correct := Results.correct results + TaskResult.correct task_result;
    Results.total := Results.total results + TaskResult.total task_result;
    Results.tasks := Results.tasks results ++ [task_result] |} in
  Ok (results', {| calls := n; partial_file := partial_file w ++ [results'] |}).

Fixpoint run_tasks (w : world) (results : Results.t) (files : list path)
  : result (Results.t * world) :=
  match files with
  | [] => Ok (results, w)
  | task_path :: rest =>
      '(results', w') <- run_task w results task_path ;;
      run_tasks w' results' rest
  end.

(** [run_evaluation]; [eval_files] is what the glob discovered, in order. *)
Definition run_evaluation (eval_files : list path) (num_tasks : option Z)
  : result (Results.t * world) :=
  let results := {|
    Results.correct := 0; Results.total := 0; Results.tasks := [] |} in
  let eval_files :=
    if truthy num_tasks
    then match num_tasks with
         | Some n => slice_to eval_files n
         | None => eval_files
         end
    else eval_files in
  run_tasks {| calls := 0; partial_file := [] |} results eval_files.

(** How [main] ends.  The accuracy line divides [results['correct']] by
    [results['total']]: with a total of zero the division raises
    [ZeroDivisionError], which [except Exception] handles, and the statement
    writing [evaluation_results.json] is not reached. *)
Inductive main_outcome : Type :=
| FinalWritten (results : Results.t) (w : world)
| ZeroDivision (results : Results.t) (w : world)
| RunRaised (e : exn).

(** [main]: the run capped at five tasks, then the report. *)
Definition main (eval_files : list path) : main_outcome :=
  match run_evaluation eval_files (Some 5) with
  | Ok (results, w) =>
      if Results.total results =? 0 then ZeroDivision results w
      else FinalWritten results w
  | Raise e => RunRaised e
  end.

End Driver.

(** ** The character table of the code points below 256 *)

(** The table restricted to the code points below 256: the decimal digits
    0-9; the superscripts two, three and one are digits that [int()]
    rejects; the blanks are TAB..CR, FS..US, space, NEL and NBSP.  A code
    point from 256 on is answered as neither digit nor blank: the table
    serves the examples, whose texts stay below 256, and the theorems are
    stated for every table. *)
Definition latin1_isdigit (c : N) : bool :=
  ((48 <=? c) && (c <=? 57) || (c =? 178) || (c =? 179) || (c =? 185))%N.

Definition latin1_isspace (c : N) : bool :=
  ((9 <=? c) && (c <=? 13) || (28 <=? c) && (c <=? 32)
   || (c =? 133) || (c =? 160))%N.

Definition latin1_decimal (c : N) : option Z :=
  if ((48 <=? c) && (c <=? 57))%N then Some (Z.of_N c - 48) else None.

(** * Vocabulary of the statements *)

(** ** Scorer and codec *)

(** Full structural equality, in the words of the specification: the same
    number of rows, the same length for every row, the same value at every
    position. *)
Definition full_equality (candidate expected : grid) : Prop :=
  length candidate = length expected /\
  forall i, (i < length candidate)%nat ->
    length (nth i candidate []) = length (nth i expected []) /\
    forall j, (j < length (nth i candidate []))%nat ->
      nth j (nth i candidate []) 0 = nth j (nth i expected []) 0.

(** What every row of a decoded grid satisfies: it is not empty and holds
    no negative number. *)
Definition good_row (r : row) : Prop := r <> [] /\ Forall (fun v => 0 <= v) r.

(** The lines the scan keeps, in the words of the specification: skip the
    lines without a digit, then take lines as long as they have one. *)
Fixpoint drop_while {A : Type} (p : A -> bool) (l : list A) : list A :=
  match l with
  | [] => []
  | x :: l' => if p x then drop_while p l' else l
  end.

Fixpoint take_while {A : Type} (p : A -> bool) (l : list A) : list A :=
  match l with
  | [] => []
  | x :: l' => if p x then x :: take_while p l' else []
  end.

(** A length of numeral that [int()] and [str()] convert under every
    setting of the interpreter's limit. *)
Definition safe_digits : nat := 640.

(** An integer whose numeral has at most [safe_digits] digits. *)
Definition short_value (v : Z) : Prop :=
  - 10 ^ Z.of_nat safe_digits < v < 10 ^ Z.of_nat safe_digits.

(** One of the ten ASCII digits. *)
Definition is_ascii_digit (c : N) : Prop :=
  exists d, 0 <= d <= 9 /\ c = (ZERO + Z.to_N d)%N.

Section Tokens.
Context {U : Unicode}.

(** A token: a non-empty run without blank. *)
Definition is_token (tok : str) : Prop :=
  tok <> [] /\ Forall (fun c => isspace c = false) tok.

(** A text made of lines [pre] without digit, lines [block] with a digit,
    and nothing or a line without digit and any lines after it. *)
Definition framed_block (pre block post : list str) : Prop :=
  Forall (fun l => ~ In LF l) (pre ++ block ++ post) /\
  Forall (fun l => has_digit l = false) pre /\
  Forall (fun l => has_digit l = true) block /\
  block <> [] /\
  (post = [] \/ exists l rest, post = l :: rest /\ has_digit l = false).

End Tokens.

(** A row as [format_grid] writes it. *)
Definition format_row (r : row) : str := join [SPACE] (map str_int r).

(** A well-formed grid in the words of the specification: rows of one
    length, every value a single digit. *)
Definition well_formed (g : grid) : Prop :=
  (exists w, Forall (fun r => length r = w) g) /\
  Forall (Forall (fun v => 0 <= v <= 9)) g.

(** ** Prompt *)

(** What the specification asks for each training pair: a label, the encoded
    input grid, the encoded output grid. *)
Definition example_block (label : nat) (example : Pair.t) : str :=
  lit "Example " ++ str_int (Z.of_nat label) ++ lit ":" ++ [LF]
  ++ lit "Input Grid:" ++ [LF] ++ format_grid (Pair.input example) ++ [LF]
  ++ lit "Output Grid:" ++ [LF] ++ format_grid (Pair.output example)
  ++ [LF; LF].

(** The pairs in their order, numbered from [first]. *)
Definition example_blocks (first : nat) (examples : list Pair.t) : str :=
  concat (map (fun '(label, example) => example_block label example)
              (combine (seq first (length examples)) examples)).

Definition query_block (test_input : grid) : str :=
  lit "Now, given this new input grid:" ++ [LF]
  ++ format_grid test_input ++ [LF; LF].

(** ** Driver *)

(** Sum of a field over the task results. *)
Definition sum_of (f : TaskResult.t -> Z) (l : list TaskResult.t) : Z :=
  fold_right (fun task_result acc => f task_result + acc) 0 l.

(** Coherence of one task result with its task. *)
Definition task_coherent (task : Task.t) (task_result : TaskResult.t) : Prop :=
  TaskResult.total task_result = Z.of_nat (length (Task.test task)) /\
  0 <= TaskResult.correct task_result <= TaskResult.total task_result.

(** Coherence of the aggregate with the task results it holds. *)
Definition results_coherent (results : Results.t) : Prop :=
  Results.correct results = sum_of TaskResult.correct (Results.tasks results) /\
  Results.total results = sum_of TaskResult.total (Results.tasks results) /\
  0 <= Results.correct results <= Results.total results /\
  Forall (fun task_result =>
            0 <= TaskResult.correct task_result
              <= TaskResult.total task_result)
         (Results.tasks results).

(** The number of files [run_evaluation] keeps for a given [num_tasks]. *)
Definition cap {A : Type} (eval_files : list A) (num_tasks : option Z) : nat :=
  match num_tasks with
  | None => length eval_files
  | Some n =>
      if n =? 0 then length eval_files
      else if 0 <? n then Nat.min (Z.to_nat n) (length eval_files)
      else (length eval_files - Z.to_nat (- n))%nat
  end.

Definition no_results : Results.t :=
  {| Results.correct := 0; Results.total := 0; Results.tasks := [] |}.

Definition fresh_world : world := {| calls := 0; partial_file := [] |}.

(** The task result after an answered test case: one more detail, and one
    more correct answer if the scorer accepts the decoded grid. *)
Definition record_outcome (task : Task.t) (task_result : TaskResult.t)
    (test_idx : Z) (test_case : Pair.t) (parsed_output : grid)
  : TaskResult.t := {|
  TaskResult.task_id := TaskResult.task_id task_result;
  TaskResult.correct :=
    if evaluate_task task parsed_output (Pair.output test_case)
    then TaskResult.correct task_result + 1
    else TaskResult.correct task_result;
  TaskResult.total := TaskResult.total task_result;
  TaskResult.details :=
    TaskResult.details task_result ++
    [{| Detail.test_case := test_idx + 1;
        Detail.correct :=
          evaluate_task task parsed_output (Pair.output test_case);
        Detail.model_output := parsed_output;
        Detail.expected_output := Pair.output test_case |}] |}.

(** The aggregate after a task: its counts added, its result appended. *)
Definition add_task_result (results : Results.t) (task_result : TaskResult.t)
  : Results.t := {|
  Results.correct := Results.correct results + TaskResult.correct task_result;
  Results.total := Results.total results + TaskResult.total task_result;
  Results.tasks := Results.tasks results ++ [task_result] |}.

(** The number of test cases declared by the tasks of [files]. *)
Definition declared_cases {path : Type} (load_task : path -> Task.t)
    (files : list path) : nat :=
  length (flat_map (fun task_path => Task.test (load_task task_path)) files).

(** The number of details flagged correct. *)
Definition count_correct (details : list Detail.t) : Z :=
  Z.of_nat (length (filter Detail.correct details)).

Section DetailVocabulary.
Context {U : Unicode}.
Variable chat : nat -> str -> call_outcome.

(** A detail that tells the truth about the test cases [cases] of [task]:
    its number is the 1-based position of a test case, its expected grid is
    the output of that test case, its model grid is decoded from a non-empty
    answer to the prompt of that test case, and its flag is what the scorer
    says of the two grids. *)
Definition detail_sound (task : Task.t) (cases : list Pair.t) (d : Detail.t)
  : Prop :=
  1 <= Detail.test_case d /\
  exists test_case n,
    nth_error cases (Z.to_nat (Detail.test_case d - 1)) = Some test_case /\
    Detail.expected_output d = Pair.output test_case /\
    call_model_with_timeout (chat n)
      (create_prompt task (Pair.input test_case)) <> [] /\
    parse_model_output
      (call_model_with_timeout (chat n)
         (create_prompt task (Pair.input test_case)))
    = Ok (Detail.model_output d) /\
    Detail.correct d
    = evaluate_task task (Detail.model_output d) (Detail.expected_output d).

Definition task_result_sound (task : Task.t) (task_result : TaskResult.t)
  : Prop :=
  TaskResult.correct task_result
  = count_correct (TaskResult.details task_result) /\
  StronglySorted (fun a b => Detail.test_case a < Detail.test_case b)
    (TaskResult.details task_result) /\
  Forall (detail_sound task (Task.test task))
    (TaskResult.details task_result).

End DetailVocabulary.

(** ** Inputs of the examples *)

(** The task of the scenarios of the specification. *)
Definition sample_task : Task.t := {|
  Task.train := [{| Pair.input := [[1; 0]; [0; 1]];
                    Pair.output := [[0; 1]; [1; 0]] |}];
  Task.test := [{| Pair.input := [[1; 1]; [0; 0]];
                   Pair.output := [[0; 0]; [1; 1]] |}] |}.

Definition sample_answer : str :=
  lit "Output Grid:" ++ [LF] ++ lit "0 0" ++ [LF] ++ lit "1 1" ++ [LF].

Definition sample_case : Pair.t :=
  {| Pair.input := [[1; 1]; [0; 0]]; Pair.output := [[0; 0]; [1; 1]] |}.

(** The sample task with its test case declared twice. *)
Definition two_case_task : Task.t := {|
  Task.train := Task.train sample_task;
  Task.test := [sample_case; sample_case] |}.

Definition sample_task_result : TaskResult.t := {|
  TaskResult.task_id := lit "sample";
  TaskResult.correct := 0;
  TaskResult.total := 2;
  TaskResult.details := [] |}.

(** A model whose first call times out and whose later calls answer. *)
Definition first_call_times_out (n : nat) (prompt : str) : call_outcome :=
  match n with
  | O => TimedOut
  | S _ => Content sample_answer
  end.

(** A model that answers the encoding of the expected grid of
    [sample_case], one that answers without any digit, one that answers
    nothing. *)
Definition answers_expected (n : nat) (prompt : str) : call_outcome :=
  Content (format_grid (Pair.output sample_case)).

Definition answers_no_idea (n : nat) (prompt : str) : call_outcome :=
  Content (lit "no idea").

Definition answers_nothing (n : nat) (prompt : str) : call_outcome :=
  Content [].

(** * Properties *)

(** ** The Latin-1 table is an instance of the interface *)

Lemma latin1_decimal_ascii (d : Z) :
  0 <= d <= 9 -> latin1_decimal (ZERO + Z.to_N d) = Some d.
Proof.
  intros Hd. unfold latin1_decimal, ZERO.
  assert (Hb : ((48 <=? 48 + Z.to_N d) && (48 + Z.to_N d <=? 57))%N = true).
  { apply andb_true_iff; split; apply N.leb_le; lia. }
  rewrite Hb. f_equal. lia.
Qed.

Lemma latin1_decimal_isdigit (c : N) (d : Z) :
  latin1_decimal c = Some d -> latin1_isdigit c = true.
Proof.
  unfold latin1_decimal, latin1_isdigit.
  destruct ((48 <=? c) && (c <=? 57))%N; [reflexivity | discriminate].
Qed.

Lemma latin1_decimal_range (c : N) (d : Z) :
  latin1_decimal c = Some d -> 0 <= d <= 9.
Proof.
  unfold latin1_decimal.
  destruct ((48 <=? c) && (c <=? 57))%N eqn:E; [| discriminate].
  intros [= <-]. apply andb_true_iff in E as [E1 E2].
  apply N.leb_le in E1, E2. lia.
Qed.

Lemma latin1_isdigit_not_isspace (c : N) :
  latin1_isdigit c = true -> latin1_isspace c = false.
Proof.
  unfold latin1_isdigit, latin1_isspace. intros H.
  repeat (apply orb_true_iff in H as [H | H]);
    [apply andb_true_iff in H as [H1 H2]; apply N.leb_le in H1, H2
    | apply N.eqb_eq in H .. ];
    repeat (apply orb_false_iff; split);
    try (apply andb_false_iff);
    try (apply N.eqb_neq; lia);
    try (left; apply N.leb_gt; lia);
    try (right; apply N.leb_gt; lia).
Qed.

#[export] Instance latin1 : Unicode := {|
  isdigit := latin1_isdigit;
  isspace := latin1_isspace;
  decimal := latin1_decimal;
  decimal_ascii := latin1_decimal_ascii;
  decimal_isdigit := latin1_decimal_isdigit;
  decimal_range := latin1_decimal_range;
  isdigit_not_isspace := latin1_isdigit_not_isspace;
  isspace_SPACE := eq_refl;
  isspace_LF := eq_refl
|}.


(** ** Scorer *)

Lemma full_equality_eq (candidate expected : grid) :
  full_equality candidate expected <-> candidate = expected.
Proof.
  split.
  - intros [Hlen Hrows].
    apply (nth_ext _ _ [] [] Hlen). intros i Hi.
    destruct (Hrows i Hi) as [Hl Hv].
    apply (nth_ext _ _ 0 0 Hl). exact Hv.
  - intros ->. split; [reflexivity |].
    intros i _. split; [reflexivity | intros j _; reflexivity].
Qed.

Lemma row_neq_false (a b : row) : row_neq a b = false <-> a = b.
Proof.
  unfold row_neq. destruct (list_eq_dec Z.eq_dec a b); split; congruence.
Qed.

Lemma compare_rows_refl (g : grid) : compare_rows (combine g g) = true.
Proof.
  induction g as [| r g IH]; simpl; [reflexivity |].
  rewrite Nat.eqb_refl. simpl.
  destruct (row_neq r r) eqn:E; [| exact IH].
  assert (row_neq r r = false) by (apply row_neq_false; reflexivity).
  congruence.
Qed.

Lemma compare_rows_eq (candidate expected : grid) :
  length candidate = length expected ->
  compare_rows (combine candidate expected) = true ->
  candidate = expected.
Proof.
  revert expected.
  induction candidate as [| r c IH]; intros [| r' e] Hlen H;
    simpl in *; try discriminate; [reflexivity |].
  destruct (length r =? length r')%nat; simpl in H; [| discriminate].
  destruct (row_neq r r') eqn:E; [discriminate |].
  apply row_neq_false in E. subst r'. f_equal. apply IH; [lia | exact H].
Qed.

Lemma evaluate_task_true (task : Task.t) (candidate expected : grid) :
  evaluate_task task candidate expected = true <->
  candidate <> [] /\ candidate = expected.
Proof.
  unfold evaluate_task. split.
  - destruct candidate as [| r c]; [discriminate |].
    cbn [is_nil orb].
    destruct (length (r :: c) =? length expected)%nat eqn:E;
      cbn [negb]; [| discriminate].
    apply Nat.eqb_eq in E. intros H. split; [discriminate |].
    apply compare_rows_eq; assumption.
  - intros [Hne <-]. destruct candidate as [| r c]; [congruence |].
    cbn [is_nil orb]. rewrite Nat.eqb_refl. cbn [negb].
    apply compare_rows_refl.
Qed.

(** C3, as the claim states it, fails when both grids are empty: row count,
    row lengths and elements all agree, and the scorer answers false. *)
Lemma evaluate_task_empty_agree_false :
  full_equality [] [] /\ evaluate_task sample_task [] [] = false.
Proof.
  split; [| reflexivity].
  split; [reflexivity |]. simpl. intros i Hi. lia.
Qed.

(** C3 (amended): the scorer answers true exactly when the candidate is not
    empty and row count, every row length and every element agree; so it
    answers false for an empty candidate, for different row counts, for a
    row of a different length and for a different element. *)
Theorem evaluate_task_exact (task : Task.t) (candidate expected : grid) :
  evaluate_task task candidate expected = true <->
  candidate <> [] /\ full_equality candidate expected.
Proof.
  rewrite evaluate_task_true, full_equality_eq. reflexivity.
Qed.

(** C8, as the claim states it, fails on the empty grid. *)
Lemma evaluate_task_empty_not_reflexive : evaluate_task sample_task [] [] <> true.
Proof. discriminate. Qed.

(** C8 (amended): the scorer is reflexive on every grid that has a row. *)
Theorem evaluate_task_refl (task : Task.t) (g : grid) :
  g <> [] -> evaluate_task task g g = true.
Proof.
  intros Hne. apply evaluate_task_true. split; [exact Hne | reflexivity].
Qed.

Lemma evaluate_task_refl_witness :
  evaluate_task sample_task [[1; 0]; [0; 1]] [[1; 0]; [0; 1]] = true.
Proof.
  apply (evaluate_task_refl sample_task [[1; 0]; [0; 1]]). discriminate.
Defined.

(** ** Decoding: totality and the values read *)

Section CodecFacts.
Context {U : Unicode}.

Lemma split_lines_chars (s : str) (l : str) (c : N) :
  In l (split_lines s) -> In c l -> In c s.
Proof.
  revert l. induction s as [| a s IH]; intros l Hl Hc; simpl in Hl.
  - destruct Hl as [<- | []]. destruct Hc.
  - destruct (a =? LF)%N.
    + destruct Hl as [<- | Hl]; [destruct Hc |].
      right. eapply IH; eassumption.
    + destruct (split_lines s) as [| l0 ls] eqn:E.
      * destruct Hl as [<- | []]. destruct Hc as [<- | []]. left; reflexivity.
      * destruct Hl as [<- | Hl].
        -- destruct Hc as [<- | Hc]; [left; reflexivity |].
           right. apply (IH l0); [left; reflexivity | exact Hc].
        -- right. apply (IH l); [right; exact Hl | exact Hc].
Qed.

Lemma has_digit_false (l : str) :
  has_digit l = false <-> Forall (fun c => isdigit c = false) l.
Proof.
  unfold has_digit. induction l as [| c l IH]; simpl.
  - split; [constructor | reflexivity].
  - rewrite orb_false_iff, IH. split.
    + intros [H1 H2]. constructor; assumption.
    + intros H. inversion H; subst. split; assumption.
Qed.

Lemma collect_lines_no_digit (todo : list str) :
  Forall (fun l => has_digit l = false) todo -> collect_lines [] todo = [].
Proof.
  induction 1 as [| l todo Hl _ IH]; simpl; [reflexivity |].
  rewrite Hl. exact IH.
Qed.

Lemma parse_body_no_digit (output : str) :
  Forall (fun c => isdigit c = false) output -> parse_body output = Ok [].
Proof.
  intros H. unfold parse_body. rewrite collect_lines_no_digit; [reflexivity |].
  apply Forall_forall. intros l Hl. apply has_digit_false.
  apply Forall_forall. intros c Hc.
  rewrite Forall_forall in H. apply H. eapply split_lines_chars; eassumption.
Qed.

Lemma parse_model_output_returns (output : str) :
  exists g, parse_model_output output = Ok g.
Proof.
  unfold parse_model_output, try_except.
  destruct (parse_body output) as [g | e]; eauto.
Qed.

Lemma split_ws_from_tokens (P : N -> Prop) (s cur : str) :
  Forall P cur ->
  Forall (fun c => isspace c = false -> P c) s ->
  Forall (fun tok => tok <> [] /\ Forall P tok) (split_ws_from cur s).
Proof.
  assert (Hrun : forall x cur', Forall P (x :: cur') ->
            rev (x :: cur') <> [] /\ Forall P (rev (x :: cur'))).
  { intros x cur' H. split; [| apply Forall_rev; exact H].
    cbn [rev]. destruct (rev cur'); discriminate. }
  intros Hcur Hs. revert cur Hcur.
  induction Hs as [| c s Hc _ IH]; intros cur Hcur; cbn [split_ws_from].
  - destruct cur as [| x cur']; constructor; [apply Hrun; exact Hcur |].
    constructor.
  - destruct (isspace c) eqn:E.
    + destruct cur as [| x cur'].
      * apply IH. constructor.
      * constructor; [apply Hrun; exact Hcur | apply IH; constructor].
    + apply IH. constructor; [apply Hc; reflexivity | exact Hcur].
Qed.

(** The tokens handed to [int()]: non-empty runs of characters that
    [isdigit] accepts, so neither sign, blank nor underscore reaches it. *)
Lemma cleaned_line_tokens (line : str) :
  Forall (fun tok => tok <> [] /\ Forall (fun c => isdigit c = true) tok)
         (split_ws (cleaned_line line)).
Proof.
  apply split_ws_from_tokens; [constructor |].
  apply Forall_forall. intros c Hc Hsp.
  apply filter_In in Hc as [_ Hc]. rewrite Hsp, orb_false_r in Hc. exact Hc.
Qed.

Lemma int_digits_nonneg (tok : str) (acc v : Z) :
  0 <= acc -> int_digits acc tok = Ok v -> 0 <= v.
Proof.
  revert acc. induction tok as [| c tok IH]; intros acc Hacc H; simpl in H.
  - injection H as <-. exact Hacc.
  - destruct (decimal c) as [d |] eqn:E; [| discriminate].
    apply decimal_range in E. apply (IH (10 * acc + d)); [lia | exact H].
Qed.

Lemma py_int_nonneg (tok : str) (v : Z) : py_int tok = Ok v -> 0 <= v.
Proof.
  destruct tok as [| c tok]; [discriminate |]. unfold py_int.
  apply int_digits_nonneg. lia.
Qed.

Lemma ints_of_nonneg (toks : list str) (r : row) :
  ints_of toks = Ok r -> Forall (fun v => 0 <= v) r.
Proof.
  revert r. induction toks as [| tok toks IH]; intros r H; simpl in H.
  - injection H as <-. constructor.
  - destruct (py_int tok) as [v |] eqn:E; [| discriminate]. simpl in H.
    destruct (ints_of toks) as [vs |]; [| discriminate]. simpl in H.
    injection H as <-. constructor; [eapply py_int_nonneg; eassumption |].
    apply IH. reflexivity.
Qed.

Lemma build_grid_rows (lines : list str) (g0 g : grid) :
  Forall good_row g0 -> build_grid g0 lines = Ok g -> Forall good_row g.
Proof.
  revert g0. induction lines as [| l lines IH]; intros g0 H0 H; simpl in H.
  - injection H as <-. exact H0.
  - destruct (row_of_line l) as [r |] eqn:E; [| discriminate]. simpl in H.
    apply IH in H; [exact H |].
    destruct r as [| v r]; [exact H0 |].
    apply Forall_app. split; [exact H0 |].
    constructor; [| constructor].
    split; [discriminate | eapply ints_of_nonneg; exact E].
Qed.

Lemma parse_model_output_rows (output : str) (g : grid) :
  parse_model_output output = Ok g -> Forall good_row g.
Proof.
  unfold parse_model_output, try_except, parse_body.
  destruct (build_grid [] _) as [g' | e] eqn:E.
  - intros [= <-]. eapply build_grid_rows; [| exact E]. constructor.
  - intros [= <-]. constructor.
Qed.

End CodecFacts.

(** ** Decoding: the first block of digit lines *)

Lemma split_lines_line (l : str) : ~ In LF l -> split_lines l = [l].
Proof.
  induction l as [| c l IH]; intros H; simpl; [reflexivity |].
  destruct (c =? LF)%N eqn:E.
  - apply N.eqb_eq in E. exfalso. apply H. left. exact E.
  - rewrite IH; [reflexivity |]. intros Hin. apply H. right. exact Hin.
Qed.

Lemma split_lines_app (l s : str) :
  ~ In LF l -> split_lines (l ++ LF :: s) = l :: split_lines s.
Proof.
  induction l as [| c l IH]; intros H; simpl.
  - reflexivity.
  - destruct (c =? LF)%N eqn:E.
    + apply N.eqb_eq in E. exfalso. apply H. left. exact E.
    + rewrite IH; [reflexivity |]. intros Hin. apply H. right. exact Hin.
Qed.

Lemma split_lines_join (ls : list str) :
  ls <> [] -> Forall (fun l => ~ In LF l) ls ->
  split_lines (join [LF] ls) = ls.
Proof.
  induction ls as [| l ls IH]; intros Hne H; [congruence |].
  inversion H as [| ? ? Hl Hls]; subst.
  destruct ls as [| l' ls'].
  - simpl. apply split_lines_line. exact Hl.
  - change (join [LF] (l :: l' :: ls')) with (l ++ LF :: join [LF] (l' :: ls')).
    rewrite split_lines_app by exact Hl.
    rewrite IH; [reflexivity | discriminate | exact Hls].
Qed.

Section BlockFacts.
Context {U : Unicode}.

Lemma collect_lines_skip (pre rest : list str) :
  Forall (fun l => has_digit l = false) pre ->
  collect_lines [] (pre ++ rest) = collect_lines [] rest.
Proof.
  induction 1 as [| l pre Hl _ IH]; simpl; [reflexivity |].
  rewrite Hl. exact IH.
Qed.

Lemma collect_lines_take (block rest acc : list str) :
  Forall (fun l => has_digit l = true) block ->
  collect_lines acc (block ++ rest) = collect_lines (acc ++ block) rest.
Proof.
  intros H. revert acc.
  induction H as [| l block Hl _ IH]; intros acc; simpl.
  - rewrite app_nil_r. reflexivity.
  - rewrite Hl, IH, <- app_assoc. reflexivity.
Qed.

Lemma collect_lines_stop (acc post : list str) :
  acc <> [] ->
  post = [] \/ (exists l rest, post = l :: rest /\ has_digit l = false) ->
  collect_lines acc post = acc.
Proof.
  intros Hne [-> | (l & rest & -> & Hl)]; simpl; [reflexivity |].
  rewrite Hl. destruct acc; [congruence | reflexivity].
Qed.

Lemma collect_lines_block (pre block post : list str) :
  Forall (fun l => has_digit l = false) pre ->
  Forall (fun l => has_digit l = true) block ->
  block <> [] ->
  post = [] \/ (exists l rest, post = l :: rest /\ has_digit l = false) ->
  collect_lines [] (pre ++ block ++ post) = block.
Proof.
  intros Hpre Hblock Hne Hpost.
  rewrite collect_lines_skip by exact Hpre.
  rewrite collect_lines_take by exact Hblock.
  apply collect_lines_stop; assumption.
Qed.

Lemma collect_lines_acc (acc todo : list str) :
  acc <> [] ->
  collect_lines acc todo = acc ++ take_while has_digit todo.
Proof.
  revert acc. induction todo as [| l todo IH]; intros acc Hne; simpl.
  - rewrite app_nil_r. reflexivity.
  - destruct (has_digit l).
    + rewrite IH, <- app_assoc; [reflexivity |].
      destruct acc; [congruence | discriminate].
    + rewrite app_nil_r. destruct acc; [congruence | reflexivity].
Qed.

Lemma collect_lines_first_block (todo : list str) :
  collect_lines [] todo =
  take_while has_digit (drop_while (fun l => negb (has_digit l)) todo).
Proof.
  induction todo as [| l todo IH]; simpl; [reflexivity |].
  destruct (has_digit l) eqn:E; simpl.
  - rewrite E. apply (collect_lines_acc [l]). discriminate.
  - exact IH.
Qed.

Lemma ints_of_length (toks : list str) (r : row) :
  ints_of toks = Ok r -> length r = length toks.
Proof.
  revert r. induction toks as [| tok toks IH]; intros r H; simpl in H.
  - injection H as <-. reflexivity.
  - destruct (py_int tok) as [v |]; [| discriminate]. simpl in H.
    destruct (ints_of toks) as [vs |]; [| discriminate]. simpl in H.
    injection H as <-. simpl. f_equal. apply IH. reflexivity.
Qed.

Lemma split_ws_from_nonempty (cur s : str) :
  cur <> [] \/ (exists c, In c s /\ isspace c = false) ->
  split_ws_from cur s <> [].
Proof.
  revert cur. induction s as [| a s IH]; intros cur H; simpl.
  - destruct H as [H | (c & [] & _)].
    destruct cur; [congruence | discriminate].
  - destruct (isspace a) eqn:E.
    + destruct cur as [| x cur]; [| discriminate].
      apply IH. right. destruct H as [H | (c & [<- | Hc] & Hs)];
        [congruence | congruence | eauto].
    + apply IH. left. discriminate.
Qed.

Lemma row_of_line_nonempty (l : str) (r : row) :
  has_digit l = true -> row_of_line l = Ok r -> r <> [].
Proof.
  unfold has_digit, row_of_line. intros Hd Hr.
  apply existsb_exists in Hd as (c & Hc & Hdig).
  apply ints_of_length in Hr.
  assert (Hne : split_ws (cleaned_line l) <> []).
  { apply split_ws_from_nonempty. right. exists c. split.
    - apply filter_In. split; [exact Hc |]. rewrite Hdig. reflexivity.
    - apply isdigit_not_isspace. exact Hdig. }
  destruct r; [| discriminate].
  destruct (split_ws (cleaned_line l)); [congruence | discriminate].
Qed.

Lemma build_grid_block (block : list str) (g g0 : grid) :
  Forall (fun l => has_digit l = true) block ->
  Forall2 (fun l r => row_of_line l = Ok r) block g ->
  build_grid g0 block = Ok (g0 ++ g).
Proof.
  intros Hd H. revert g0 Hd.
  induction H as [| l r block g Hr _ IH]; intros g0 Hd; simpl.
  - rewrite app_nil_r. reflexivity.
  - inversion Hd as [| ? ? Hl Hd']; subst.
    rewrite Hr. simpl.
    pose proof (row_of_line_nonempty l r Hl Hr) as Hne.
    destruct r as [| v r]; [congruence |].
    rewrite IH by exact Hd'. rewrite <- app_assoc. reflexivity.
Qed.

(** Text made of [pre], then the digit lines [block], then [post]. *)
Lemma parse_body_block (pre block post : list str) (g : grid) :
  Forall (fun l => ~ In LF l) (pre ++ block ++ post) ->
  Forall (fun l => has_digit l = false) pre ->
  Forall (fun l => has_digit l = true) block ->
  block <> [] ->
  post = [] \/ (exists l rest, post = l :: rest /\ has_digit l = false) ->
  Forall2 (fun l r => row_of_line l = Ok r) block g ->
  parse_body (join [LF] (pre ++ block ++ post)) = Ok g.
Proof.
  intros Hlf Hpre Hblock Hne Hpost Hrows. unfold parse_body.
  rewrite split_lines_join; [| | exact Hlf].
  - rewrite collect_lines_block by assumption.
    apply (build_grid_block block g []); assumption.
  - destruct pre; [destruct block; [congruence | discriminate] | discriminate].
Qed.

End BlockFacts.

(** ** Encoding: the text [format_grid] writes *)

Lemma join_cons (sep p : str) (q : str) (ps : list str) :
  join sep (p :: q :: ps) = p ++ sep ++ join sep (q :: ps).
Proof. reflexivity. Qed.

Lemma join_Forall (P : N -> Prop) (sep : str) (parts : list str) :
  Forall P sep -> Forall (Forall P) parts -> Forall P (join sep parts).
Proof.
  intros Hsep. induction 1 as [| p ps Hp Hps IH]; [constructor |].
  destruct ps as [| q ps]; [exact Hp |].
  rewrite join_cons. apply Forall_app. split; [exact Hp |].
  apply Forall_app. split; [exact Hsep | exact IH].
Qed.

Section EncodeFacts.
Context {U : Unicode}.

Lemma digits_of_spec (fuel : nat) (n : Z) (acc : str) :
  0 <= n < 10 ^ (Z.of_nat fuel + 1) ->
  exists s,
    digits_of fuel n acc = s ++ acc /\ s <> [] /\ Forall is_ascii_digit s /\
    forall a rest, int_digits a (s ++ rest)
                   = int_digits (a * 10 ^ Z.of_nat (length s) + n) rest.
Proof.
  revert n acc.
  assert (Hone : forall n acc, 0 <= n < 10 ->
    exists s,
      (ZERO + Z.to_N (n mod 10))%N :: acc = s ++ acc /\ s <> [] /\
      Forall is_ascii_digit s /\
      forall a rest, int_digits a (s ++ rest)
                     = int_digits (a * 10 ^ Z.of_nat (length s) + n) rest).
  { intros n acc Hn. rewrite Z.mod_small by lia.
    exists [(ZERO + Z.to_N n)%N]. split; [reflexivity |].
    split; [discriminate |]. split.
    - constructor; [| constructor]. exists n. split; [lia | reflexivity].
    - intros a rest. cbn [app int_digits]. rewrite decimal_ascii by lia.
      f_equal. cbn [length]. change (Z.of_nat 1) with 1.
      rewrite Z.pow_1_r. lia. }
  induction fuel as [| fuel IH]; intros n acc Hn.
  - simpl. apply Hone. simpl in Hn. lia.
  - cbn [digits_of]. destruct (n <? 10) eqn:E.
    + apply Hone. apply Z.ltb_lt in E. lia.
    + apply Z.ltb_ge in E.
      assert (Hpow : 10 ^ (Z.of_nat (S fuel) + 1)
                     = 10 * 10 ^ (Z.of_nat fuel + 1)).
      { rewrite <- Z.pow_succ_r by lia. f_equal. lia. }
      assert (Hq : 0 <= n / 10 < 10 ^ (Z.of_nat fuel + 1)).
      { split; [apply Z.div_pos; lia |].
        apply Z.div_lt_upper_bound; lia. }
      destruct (IH (n / 10) ((ZERO + Z.to_N (n mod 10))%N :: acc) Hq)
        as (s & Hs & Hne & Hall & Hval).
      exists (s ++ [(ZERO + Z.to_N (n mod 10))%N]).
      split; [rewrite Hs, <- app_assoc; reflexivity |].
      split; [destruct s; discriminate |].
      split.
      * apply Forall_app. split; [exact Hall |].
        constructor; [| constructor]. exists (n mod 10).
        split; [| reflexivity]. pose proof (Z.mod_pos_bound n 10). lia.
      * intros a rest. rewrite <- app_assoc. rewrite Hval.
        cbn [app int_digits].
        rewrite decimal_ascii by (pose proof (Z.mod_pos_bound n 10); lia).
        f_equal. rewrite length_app, Nat2Z.inj_add. cbn [length].
        change (Z.of_nat 1) with 1.
        rewrite Z.pow_add_r by lia. rewrite Z.pow_1_r.
        pose proof (Z.div_mod n 10). lia.
Qed.

Lemma log2_fuel (n : Z) : 0 <= n -> n < 10 ^ (Z.of_nat (Z.to_nat (Z.log2 n)) + 1).
Proof.
  intros Hn. pose proof (Z.log2_nonneg n) as Hl.
  rewrite Z2Nat.id by exact Hl.
  destruct (Z.eq_dec n 0) as [-> | Hnz]; [reflexivity |].
  assert (Hlt : n < 2 ^ (Z.log2 n + 1)).
  { apply (Z.log2_spec n). lia. }
  assert (Hle : 2 ^ (Z.log2 n + 1) <= 10 ^ (Z.log2 n + 1)).
  { apply Z.pow_le_mono_l. lia. }
  lia.
Qed.

(** [str(n)] for [n >= 0] is a non-empty run of ASCII digits whose value,
    read by [int()], is [n]. *)
Lemma str_int_nonneg (n : Z) :
  0 <= n ->
  str_int n <> [] /\ Forall is_ascii_digit (str_int n) /\
  py_int (str_int n) = Ok n.
Proof.
  intros Hn. unfold str_int.
  assert (E : (n <? 0) = false) by (apply Z.ltb_ge; exact Hn). rewrite E.
  unfold str_nat.
  destruct (digits_of_spec (Z.to_nat (Z.log2 n)) n [])
    as (s & Hs & Hne & Hall & Hval).
  { split; [exact Hn | apply log2_fuel; exact Hn]. }
  rewrite app_nil_r in Hs. rewrite Hs.
  split; [exact Hne |]. split; [exact Hall |].
  unfold py_int. destruct s as [| c s]; [congruence |].
  specialize (Hval 0 []). rewrite app_nil_r in Hval. rewrite Hval.
  simpl. reflexivity.
Qed.

Lemma ascii_digit_isdigit (c : N) : is_ascii_digit c -> isdigit c = true.
Proof.
  intros (d & Hd & ->). eapply decimal_isdigit. apply decimal_ascii. exact Hd.
Qed.

Lemma ascii_digit_not_LF (c : N) : is_ascii_digit c -> c <> LF.
Proof. intros (d & Hd & ->). unfold ZERO, LF. lia. Qed.

Lemma split_ws_from_run (tok s cur : str) :
  Forall (fun c => isspace c = false) tok ->
  split_ws_from cur (tok ++ s) = split_ws_from (rev tok ++ cur) s.
Proof.
  intros H. revert cur. induction H as [| c tok Hc _ IH]; intros cur.
  - reflexivity.
  - cbn [app split_ws_from]. rewrite Hc, IH. cbn [rev].
    rewrite <- app_assoc. reflexivity.
Qed.

Lemma split_ws_join (toks : list str) :
  Forall is_token toks -> split_ws (join [SPACE] toks) = toks.
Proof.
  unfold split_ws.
  induction 1 as [| tok toks [Hne Hrun] _ IH]; [reflexivity |].
  assert (Hrev : exists c t, rev tok = c :: t).
  { destruct (rev tok) as [| c t] eqn:E; [| eauto].
    apply (f_equal (@rev N)) in E. rewrite rev_involutive in E.
    simpl in E. congruence. }
  destruct Hrev as (c & t & Hrev).
  destruct toks as [| q toks].
  - cbn [join]. rewrite <- (app_nil_r tok) at 1.
    rewrite split_ws_from_run by exact Hrun. rewrite app_nil_r.
    cbn [split_ws_from]. rewrite Hrev, <- Hrev, rev_involutive. reflexivity.
  - rewrite join_cons. rewrite split_ws_from_run by exact Hrun.
    rewrite app_nil_r. cbn [app split_ws_from]. rewrite isspace_SPACE.
    rewrite Hrev, <- Hrev, rev_involutive, IH. reflexivity.
Qed.

Lemma cleaned_line_id (l : str) :
  Forall (fun c => isdigit c = true \/ isspace c = true) l ->
  cleaned_line l = l.
Proof.
  unfold cleaned_line. induction 1 as [| c l Hc _ IH]; simpl; [reflexivity |].
  assert (E : isdigit c || isspace c = true)
    by (apply orb_true_iff; exact Hc).
  rewrite E, IH. reflexivity.
Qed.

Lemma ints_of_str_int (r : row) :
  Forall (fun v => 0 <= v) r -> ints_of (map str_int r) = Ok r.
Proof.
  induction 1 as [| v r Hv _ IH]; simpl; [reflexivity |].
  destruct (str_int_nonneg v Hv) as (_ & _ & ->). simpl.
  rewrite IH. reflexivity.
Qed.

Lemma format_row_tokens (r : row) :
  Forall (fun v => 0 <= v) r -> Forall (Forall is_ascii_digit) (map str_int r).
Proof.
  intros H. apply Forall_map. eapply Forall_impl; [| exact H].
  intros v Hv. apply (str_int_nonneg v Hv).
Qed.

Lemma row_of_line_format_row (r : row) :
  Forall (fun v => 0 <= v) r -> row_of_line (format_row r) = Ok r.
Proof.
  intros H. unfold row_of_line, format_row.
  rewrite cleaned_line_id.
  - rewrite split_ws_join; [apply ints_of_str_int; exact H |].
    apply Forall_map. eapply Forall_impl; [| exact H].
    intros v Hv. destruct (str_int_nonneg v Hv) as (Hne & Hall & _).
    split; [exact Hne |]. eapply Forall_impl; [| exact Hall].
    intros c Hc. apply isdigit_not_isspace, ascii_digit_isdigit, Hc.
  - apply join_Forall.
    + constructor; [right; apply isspace_SPACE | constructor].
    + eapply Forall_impl; [| apply format_row_tokens; exact H].
      intros tok Htok. eapply Forall_impl; [| exact Htok].
      intros c Hc. left. apply ascii_digit_isdigit, Hc.
Qed.

Lemma format_row_no_LF (r : row) :
  Forall (fun v => 0 <= v) r -> ~ In LF (format_row r).
Proof.
  intros H Hin.
  assert (Hall : Forall (fun c => c <> LF) (format_row r)).
  { apply join_Forall.
    - constructor; [discriminate | constructor].
    - eapply Forall_impl; [| apply format_row_tokens; exact H].
      intros tok Htok. eapply Forall_impl; [| exact Htok].
      intros c Hc. apply ascii_digit_not_LF, Hc. }
  rewrite Forall_forall in Hall. exact (Hall LF Hin eq_refl).
Qed.

Lemma format_row_has_digit (r : row) :
  r <> [] -> Forall (fun v => 0 <= v) r -> has_digit (format_row r) = true.
Proof.
  intros Hne H. destruct r as [| v r]; [congruence |].
  inversion H as [| ? ? Hv _]; subst.
  destruct (str_int_nonneg v Hv) as (Hs & Hall & _).
  destruct (str_int v) as [| c s] eqn:E; [congruence |].
  inversion Hall as [| ? ? Hc _]; subst.
  unfold has_digit. apply existsb_exists. exists c.
  split; [| apply ascii_digit_isdigit, Hc].
  unfold format_row. cbn [map]. rewrite E.
  destruct (map str_int r); cbn [join]; left; reflexivity.
Qed.

(** Decoding what [format_grid] wrote, for rows that are not empty and
    hold no negative number. *)
Lemma parse_format_grid (g : grid) :
  Forall good_row g -> parse_model_output (format_grid g) = Ok g.
Proof.
  intros H. unfold parse_model_output.
  destruct g as [| r0 g0]; [reflexivity |].
  remember (r0 :: g0) as g eqn:Eg.
  assert (Hbody : parse_body (format_grid g) = Ok g).
  { change (format_grid g) with (join [LF] (map format_row g)).
    rewrite <- (app_nil_r (map format_row g)).
    apply (parse_body_block [] (map format_row g) [] g).
    - rewrite app_nil_r. apply Forall_map. eapply Forall_impl; [| exact H].
      intros r [_ Hr]. apply format_row_no_LF, Hr.
    - constructor.
    - apply Forall_map. eapply Forall_impl; [| exact H].
      intros r [Hne Hr]. apply format_row_has_digit; assumption.
    - subst g. discriminate.
    - left. reflexivity.
    - clear Eg. induction H as [| r g [_ Hr] _ IH]; [constructor |].
      constructor; [apply row_of_line_format_row, Hr | exact IH]. }
  rewrite Hbody. reflexivity.
Qed.

(** A formatted grid between lines without digit is read back. *)
Lemma parse_embedded_grid (pre post : list str) (g : grid) :
  g <> [] -> Forall good_row g ->
  Forall (fun l => ~ In LF l) (pre ++ post) ->
  Forall (fun l => has_digit l = false) pre ->
  post = [] \/ (exists l rest, post = l :: rest /\ has_digit l = false) ->
  parse_model_output (join [LF] (pre ++ map format_row g ++ post)) = Ok g.
Proof.
  intros Hne H Hlf Hpre Hpost. unfold parse_model_output.
  rewrite (parse_body_block pre (map format_row g) post g);
    [reflexivity | | exact Hpre | | | exact Hpost |].
  - apply Forall_app in Hlf as [Hlf1 Hlf2].
    apply Forall_app. split; [exact Hlf1 |].
    apply Forall_app. split; [| exact Hlf2].
    apply Forall_map. eapply Forall_impl; [| exact H].
    intros r [_ Hr]. apply format_row_no_LF, Hr.
  - apply Forall_map. eapply Forall_impl; [| exact H].
    intros r [Hr0 Hr]. apply format_row_has_digit; assumption.
  - destruct g; [congruence | discriminate].
  - clear Hne. induction H as [| r g [_ Hr] _ IH]; [constructor |].
    constructor; [apply row_of_line_format_row, Hr | exact IH].
Qed.

End EncodeFacts.

(** ** The codec's claims *)

(** C1, as the claim states it, fails on the well-formed grid of one row and
    no column: its text is empty and decodes to the grid without rows. *)
Lemma roundtrip_loses_empty_row :
  well_formed [[]] /\
  parse_model_output (U := latin1) (format_grid [[]]) = Ok [] /\
  parse_model_output (U := latin1) (format_grid [[]]) <> Ok [[]].
Proof.
  split; [| split; [reflexivity | discriminate]].
  split; [exists 0%nat |]; repeat constructor.
Qed.

(** C1 (amended): for every well-formed grid (rows of one length, every
    value a single digit 0-9) whose rows are not empty, decoding the encoded
    text gives the grid back. *)
Theorem parse_format_roundtrip {U : Unicode} (g : grid) :
  well_formed g -> Forall (fun r => r <> []) g ->
  parse_model_output (format_grid g) = Ok g.
Proof.
  intros [_ Hval] Hne. apply parse_format_grid.
  rewrite Forall_forall in *. intros r Hr. split; [apply Hne, Hr |].
  specialize (Hval r Hr). rewrite Forall_forall in *.
  intros v Hv. apply Hval in Hv. lia.
Qed.

Lemma parse_format_roundtrip_witness :
  parse_model_output (U := latin1) (format_grid [[1; 0]; [0; 1]])
  = Ok [[1; 0]; [0; 1]].
Proof.
  apply (parse_format_roundtrip (U := latin1) [[1; 0]; [0; 1]]).
  - split; [exists 2%nat |]; repeat constructor; lia.
  - repeat constructor; discriminate.
Defined.

(** The body of the [try] does raise: a superscript two is a digit for
    [isdigit] and not a decimal for [int()]. *)
Example parse_body_raises :
  parse_body (U := latin1) (lit "x" ++ [178%N] ++ lit " = 4")
  = Raise ValueError /\
  parse_model_output (U := latin1) (lit "x" ++ [178%N] ++ lit " = 4")
  = Ok [].
Proof. split; reflexivity. Qed.

(** C2: decoding returns a grid for every input and never raises; when the
    input has no digit, and when the body of the [try] raises, what it
    returns is the empty grid. *)
Theorem parse_model_output_never_raises {U : Unicode} (output : str) :
  (exists g, parse_model_output output = Ok g) /\
  (Forall (fun c => isdigit c = false) output ->
   parse_model_output output = Ok []) /\
  (forall e, parse_body output = Raise e -> parse_model_output output = Ok []).
Proof.
  split; [apply parse_model_output_returns |]. split.
  - intros H. unfold parse_model_output.
    rewrite (parse_body_no_digit output H). reflexivity.
  - intros e H. unfold parse_model_output. rewrite H. reflexivity.
Qed.

(** The scenario of the specification, and a grid interrupted by a line
    without digit: the rows after the interruption are not read. *)
Example parse_scenario :
  parse_model_output (U := latin1) sample_answer = Ok [[0; 0]; [1; 1]].
Proof. reflexivity. Qed.

Example parse_interrupted :
  parse_model_output (U := latin1)
    (lit "Here you go:" ++ [LF] ++ lit "| 1, 2 |" ++ [LF] ++ lit "(aside)"
     ++ [LF] ++ lit "3 4")
  = Ok [[1; 2]].
Proof. reflexivity. Qed.

(** C9, as the claim states it, fails: a token of two digits is read as one
    number above nine. *)
Lemma parse_model_output_above_nine :
  parse_model_output (U := latin1) (lit "12") = Ok [[12]] /\
  ~ (0 <= 12 <= 9).
Proof. split; [reflexivity | lia]. Qed.

(** C9 (amended): for every input, decoding returns a grid in which no
    integer is negative. *)
Theorem parse_model_output_values {U : Unicode} (output : str) :
  exists g, parse_model_output output = Ok g /\
            Forall (Forall (fun v => 0 <= v)) g.
Proof.
  destruct (parse_model_output_returns output) as [g Hg].
  exists g. split; [exact Hg |].
  apply parse_model_output_rows in Hg.
  eapply Forall_impl; [| exact Hg]. intros r [_ Hr]. exact Hr.
Qed.

(** ** Prompt builder *)

Lemma add_examples_blocks (examples : list Pair.t) (prompt : str) (k : nat) :
  add_examples prompt (Z.of_nat k) examples
  = prompt ++ example_blocks k examples.
Proof.
  revert prompt k.
  induction examples as [| example rest IH]; intros prompt k.
  - unfold example_blocks. cbn [add_examples length seq combine map concat].
    rewrite app_nil_r. reflexivity.
  - cbn [add_examples].
    replace (Z.of_nat k + 1) with (Z.of_nat (S k)) by lia.
    rewrite IH. unfold example_blocks.
    cbn [length seq combine map concat]. unfold example_block.
    repeat rewrite <- app_assoc. reflexivity.
Qed.

(** The prompt of the scenario of the specification. *)
Example create_prompt_sample :
  create_prompt sample_task [[1; 1]; [0; 0]] = lit
"You are an expert at solving abstract reasoning challenges. Your task is to analyze patterns in grids and generate the correct output grid.

Given these training examples:

Example 1:
Input Grid:
1 0
0 1
Output Grid:
0 1
1 0

Now, given this new input grid:
1 1
0 0

Rules:
1. Analyze the pattern in the training examples
2. Apply the same pattern to the new input
3. Respond with ONLY the output grid using space-separated numbers and newlines
4. Each number should be between 0-9
5. Ensure the dimensions match the pattern from examples

Output Grid:".
Proof. vm_compute. reflexivity. Qed.

(** C7: the prompt is a function of the task and of the test input alone:
    two calls on the same task and the same test input return the same
    text.  That text is the fixed head, then one block per training pair, in
    the order of the task and labelled 1, 2, ..., then the test input and
    the fixed rules. *)
Theorem create_prompt_deterministic (task : Task.t) (test_input : grid) :
  (forall task' test_input',
     task' = task -> test_input' = test_input ->
     create_prompt task' test_input' = create_prompt task test_input) /\
  create_prompt task test_input
  = prompt_head ++ example_blocks 1 (Task.train task)
    ++ query_block test_input ++ prompt_rules.
Proof.
  split.
  - intros task' test_input' -> ->. reflexivity.
  - unfold create_prompt, query_block.
    change 1 with (Z.of_nat 1).
    rewrite (add_examples_blocks (Task.train task) prompt_head 1).
    repeat rewrite <- app_assoc. reflexivity.
Qed.

(** ** Evaluation driver *)

Lemma sum_of_app (f : TaskResult.t -> Z) (l l' : list TaskResult.t) :
  sum_of f (l ++ l') = sum_of f l + sum_of f l'.
Proof.
  induction l as [| x l IH]; simpl; [reflexivity |]. rewrite IH. lia.
Qed.

Lemma firstn_min {A : Type} (n : nat) (l : list A) :
  firstn (Nat.min n (length l)) l = firstn n l.
Proof.
  destruct (Nat.le_ge_cases n (length l)) as [H | H].
  - rewrite Nat.min_l by exact H. reflexivity.
  - rewrite Nat.min_r by exact H.
    rewrite firstn_all, firstn_all2 by exact H. reflexivity.
Qed.

Section DriverFacts.
Context {U : Unicode}.
Variable path : Type.
Variable stem : path -> str.
Variable load_task : path -> Task.t.
Variable chat : nat -> str -> call_outcome.

Lemma call_model_with_timeout_skipped (n : nat) (prompt : str) :
  chat n prompt = TimedOut \/ chat n prompt = Failed ->
  call_model_with_timeout (chat n) prompt = [].
Proof.
  unfold call_model_with_timeout. intros [-> | ->]; reflexivity.
Qed.

Lemma run_test_cases_skip (task : Task.t) (n : nat)
    (task_result : TaskResult.t) (test_idx : Z) (test_case : Pair.t)
    (rest : list Pair.t) :
  call_model_with_timeout (chat n) (create_prompt task (Pair.input test_case))
  = [] ->
  run_test_cases chat task n task_result test_idx (test_case :: rest)
  = run_test_cases chat task (S n) task_result (test_idx + 1) rest.
Proof. intros H. cbn [run_test_cases]. rewrite H. reflexivity. Qed.

(** The loop over the test cases returns; it leaves the identifier and the
    total alone, adds at most one to [correct] and at most one detail per
    test case, and calls the model once per test case. *)
Lemma run_test_cases_counts (task : Task.t) (cases : list Pair.t) (n : nat)
    (task_result : TaskResult.t) (test_idx : Z) :
  exists n' task_result',
    run_test_cases chat task n task_result test_idx cases
    = Ok (n', task_result') /\
    n' = (n + length cases)%nat /\
    TaskResult.task_id task_result' = TaskResult.task_id task_result /\
    TaskResult.total task_result' = TaskResult.total task_result /\
    TaskResult.correct task_result <= TaskResult.correct task_result'
      <= TaskResult.correct task_result + Z.of_nat (length cases) /\
    (length (TaskResult.details task_result')
     <= length (TaskResult.details task_result) + length cases)%nat.
Proof.
  revert n task_result test_idx.
  induction cases as [| test_case rest IH]; intros n task_result test_idx.
  - exists n, task_result. cbn [run_test_cases length].
    repeat split; lia.
  - cbn [run_test_cases].
    destruct (is_nil (call_model_with_timeout (chat n)
                        (create_prompt task (Pair.input test_case)))).
    + destruct (IH (S n) task_result (test_idx + 1))
        as (n' & tr' & -> & Hn & Hid & Htot & Hcor & Hdet).
      exists n', tr'. cbn [length]. repeat split; lia || assumption.
    + destruct (parse_model_output_returns
                  (call_model_with_timeout (chat n)
                     (create_prompt task (Pair.input test_case))))
        as [parsed_output ->].
      cbn [bind].
      match goal with
      | |- context [run_test_cases chat task (S n) ?tr1 (test_idx + 1) rest] =>
          destruct (IH (S n) tr1 (test_idx + 1))
            as (n' & tr' & -> & Hn & Hid & Htot & Hcor & Hdet)
      end.
      exists n', tr'. cbn [TaskResult.task_id TaskResult.total
                           TaskResult.correct TaskResult.details] in *.
      rewrite length_app in Hdet. cbn [length] in *.
      destruct (evaluate_task task parsed_output (Pair.output test_case));
        repeat split; lia || assumption.
Qed.

(** One task: the run returns, appends one coherent task result, adds its
    counts to the aggregate and writes the aggregate to the partial file. *)
Lemma run_task_spec (w : world) (results : Results.t) (task_path : path) :
  exists task_result,
    run_task path stem load_task chat w results task_path
    = Ok ({| Results.correct :=
               Results.correct results + TaskResult.correct task_result;
             Results.total :=
               Results.total results + TaskResult.total task_result;
             Results.tasks := Results.tasks results ++ [task_result] |},
          {| calls :=
               (calls w + length (Task.test (load_task task_path)))%nat;
             partial_file :=
               partial_file w ++
               [{| Results.correct :=
                     Results.correct results + TaskResult.correct task_result;
                   Results.total :=
                     Results.total results + TaskResult.total task_result;
                   Results.tasks := Results.tasks results ++ [task_result] |}]
          |}) /\
    TaskResult.task_id task_result = stem task_path /\
    task_coherent (load_task task_path) task_result /\
    (length (TaskResult.details task_result)
     <= length (Task.test (load_task task_path)))%nat.
Proof.
  unfold run_task.
  match goal with
  | |- context [run_test_cases chat ?t ?n ?tr ?i ?cs] =>
      destruct (run_test_cases_counts t cs n tr i)
        as (n' & tr' & -> & Hn & Hid & Htot & Hcor & Hdet)
  end.
  cbn [bind]. subst n'. exists tr'.
  cbn [TaskResult.task_id TaskResult.total TaskResult.correct
       TaskResult.details length] in *.
  split; [reflexivity |]. split; [exact Hid |].
  split; [| lia]. unfold task_coherent. lia.
Qed.

Lemma run_tasks_spec (files : list path) (w : world) (results : Results.t) :
  results_coherent results ->
  Forall (fun snapshot =>
            results_coherent snapshot /\
            exists later,
              Results.tasks results = Results.tasks snapshot ++ later)
         (partial_file w) ->
  exists new results' w',
    run_tasks path stem load_task chat w results files = Ok (results', w') /\
    Results.tasks results' = Results.tasks results ++ new /\
    Forall2 (fun task_path task_result =>
               TaskResult.task_id task_result = stem task_path /\
               task_coherent (load_task task_path) task_result)
            files new /\
    results_coherent results' /\
    Forall (fun snapshot =>
              results_coherent snapshot /\
              exists later,
                Results.tasks results' = Results.tasks snapshot ++ later)
           (partial_file w') /\
    length (partial_file w') = (length (partial_file w) + length files)%nat.
Proof.
  revert w results.
  induction files as [| task_path rest IH]; intros w results Hres Hsnap.
  - exists [], results, w. cbn [run_tasks length].
    rewrite app_nil_r. repeat split; try assumption; try apply Hres.
    + constructor.
    + lia.
  - cbn [run_tasks].
    destruct (run_task_spec w results task_path)
      as (tr & -> & Hid & Hcoh & _).
    cbn [bind].
    set (results1 := {|
      Results.correct := Results.correct results + TaskResult.correct tr;
      Results.total := Results.total results + TaskResult.total tr;
      Results.tasks := Results.tasks results ++ [tr] |}).
    set (w1 := {|
      calls := (calls w + length (Task.test (load_task task_path)))%nat;
      partial_file := partial_file w ++ [results1] |}).
    assert (Hres1 : results_coherent results1).
    { destruct Hres as (Hc & Ht & Hle & Hall). destruct Hcoh as [_ Hcor].
      unfold results_coherent, results1.
      cbn [Results.correct Results.total Results.tasks].
      rewrite !sum_of_app. cbn [sum_of fold_right].
      repeat split; try lia.
      apply Forall_app. split; [exact Hall | constructor; [lia | constructor]]. }
    assert (Hsnap1 : Forall (fun snapshot =>
              results_coherent snapshot /\
              exists later,
                Results.tasks results1 = Results.tasks snapshot ++ later)
              (partial_file w1)).
    { unfold w1. cbn [partial_file]. apply Forall_app. split.
      - eapply Forall_impl; [| exact Hsnap].
        intros snapshot [Hs (later & Hl)]. split; [exact Hs |].
        exists (later ++ [tr]). unfold results1. cbn [Results.tasks].
        rewrite Hl, <- app_assoc. reflexivity.
      - constructor; [| constructor]. split; [exact Hres1 |].
        exists []. rewrite app_nil_r. reflexivity. }
    destruct (IH w1 results1 Hres1 Hsnap1)
      as (new & results' & w' & -> & Htasks & Hnew & Hres' & Hsnap' & Hlen).
    exists (tr :: new), results', w'.
    split; [reflexivity |]. split.
    { rewrite Htasks. unfold results1. cbn [Results.tasks].
      rewrite <- app_assoc. reflexivity. }
    split; [constructor; [split; assumption | exact Hnew] |].
    split; [exact Hres' |]. split; [exact Hsnap' |].
    rewrite Hlen. unfold w1. cbn [partial_file length].
    rewrite length_app. cbn [length]. lia.
Qed.

Lemma run_evaluation_cap (eval_files : list path) (num_tasks : option Z) :
  run_evaluation path stem load_task chat eval_files num_tasks
  = run_tasks path stem load_task chat fresh_world no_results
      (firstn (cap eval_files num_tasks) eval_files).
Proof.
  unfold run_evaluation, cap, truthy, slice_to.
  fold no_results. fold fresh_world.
  destruct num_tasks as [n |]; [| rewrite firstn_all; reflexivity].
  destruct (n =? 0) eqn:E0; cbn [negb]; [rewrite firstn_all; reflexivity |].
  destruct (0 <? n) eqn:Epos.
  - apply Z.ltb_lt in Epos.
    assert (E : (0 <=? n) = true) by (apply Z.leb_le; lia).
    rewrite E, firstn_min. reflexivity.
  - apply Z.ltb_ge in Epos. apply Z.eqb_neq in E0.
    assert (E : (0 <=? n) = false) by (apply Z.leb_gt; lia).
    rewrite E. reflexivity.
Qed.

Lemma no_results_coherent : results_coherent no_results.
Proof. repeat split; simpl; try lia. constructor. Qed.

Lemma run_evaluation_spec (eval_files : list path) (num_tasks : option Z) :
  exists results w,
    run_evaluation path stem load_task chat eval_files num_tasks
    = Ok (results, w) /\
    Forall2 (fun task_path task_result =>
               TaskResult.task_id task_result = stem task_path /\
               task_coherent (load_task task_path) task_result)
            (firstn (cap eval_files num_tasks) eval_files)
            (Results.tasks results) /\
    results_coherent results /\
    Forall (fun snapshot =>
              results_coherent snapshot /\
              exists later,
                Results.tasks results = Results.tasks snapshot ++ later)
           (partial_file w) /\
    length (partial_file w) = length (Results.tasks results).
Proof.
  rewrite run_evaluation_cap.
  destruct (run_tasks_spec (firstn (cap eval_files num_tasks) eval_files)
              fresh_world no_results no_results_coherent)
    as (new & results & w & Hrun & Htasks & Hnew & Hres & Hsnap & Hlen).
  { constructor. }
  cbn [no_results Results.tasks app] in Htasks. subst new.
  exists results, w. repeat split; try assumption; try apply Hres.
  rewrite Hlen. cbn [fresh_world partial_file length].
  apply Forall2_length in Hnew. lia.
Qed.

End DriverFacts.

(** ** The driver's claims *)

(** One file, and a model that answers the expected grid. *)
Example run_scenario_answered :
  run_evaluation (U := latin1) unit (fun _ => lit "sample") (fun _ => sample_task)
    (fun _ _ => Content sample_answer) [tt] (Some 5)
  = Ok ({| Results.correct := 1; Results.total := 1;
           Results.tasks :=
             [{| TaskResult.task_id := lit "sample";
                 TaskResult.correct := 1; TaskResult.total := 1;
                 TaskResult.details :=
                   [{| Detail.test_case := 1; Detail.correct := true;
                       Detail.model_output := [[0; 0]; [1; 1]];
                       Detail.expected_output := [[0; 0]; [1; 1]] |}] |}] |},
        {| calls := 1;
           partial_file :=
             [{| Results.correct := 1; Results.total := 1;
                 Results.tasks :=
                   [{| TaskResult.task_id := lit "sample";
                       TaskResult.correct := 1; TaskResult.total := 1;
                       TaskResult.details :=
                         [{| Detail.test_case := 1; Detail.correct := true;
                             Detail.model_output := [[0; 0]; [1; 1]];
                             Detail.expected_output := [[0; 0]; [1; 1]] |}]
                   |}] |}] |}).
Proof. vm_compute. reflexivity. Qed.

(** C5, as the claim states it, fails: when the only model call of a run
    times out, no outcome is recorded and the correct count stays 0, but the
    test case is counted in the totals of the task and of the run. *)
Lemma skipped_case_counted_in_total :
  run_evaluation (U := latin1) unit (fun _ => lit "sample") (fun _ => sample_task)
    (fun _ _ => TimedOut) [tt] (Some 5)
  = Ok ({| Results.correct := 0; Results.total := 1;
           Results.tasks :=
             [{| TaskResult.task_id := lit "sample";
                 TaskResult.correct := 0; TaskResult.total := 1;
                 TaskResult.details := [] |}] |},
        {| calls := 1;
           partial_file :=
             [{| Results.correct := 0; Results.total := 1;
                 Results.tasks :=
                   [{| TaskResult.task_id := lit "sample";
                       TaskResult.correct := 0; TaskResult.total := 1;
                       TaskResult.details := [] |}] |}] |}).
Proof. vm_compute. reflexivity. Qed.

(** C6: every run returns, and after each task (every content written to
    the partial file) and at the end of the run: the correct and total
    counts of the results are the sums of those of the task results they
    hold, correct is at most total at both levels; each task result
    carries the identifier of its file and a total equal to the number of
    test cases declared in its task, whatever the model calls did.  A run
    over no file returns zero counts. *)
Theorem count_coherence {U : Unicode} (path : Type) (stem : path -> str)
    (load_task : path -> Task.t) (chat : nat -> str -> call_outcome)
    (eval_files : list path) (num_tasks : option Z) :
  (exists results w,
     run_evaluation path stem load_task chat eval_files num_tasks
     = Ok (results, w) /\
     Forall2 (fun task_path task_result =>
                TaskResult.task_id task_result = stem task_path /\
                task_coherent (load_task task_path) task_result)
             (firstn (cap eval_files num_tasks) eval_files)
             (Results.tasks results) /\
     results_coherent results /\
     Forall (fun snapshot =>
               results_coherent snapshot /\
               exists later,
                 Results.tasks results = Results.tasks snapshot ++ later)
            (partial_file w) /\
     length (partial_file w) = length (Results.tasks results)) /\
  run_evaluation path stem load_task chat [] num_tasks
  = Ok (no_results, fresh_world).
Proof.
  split; [apply run_evaluation_spec |].
  rewrite run_evaluation_cap. rewrite firstn_nil. reflexivity.
Qed.

(** C10: with [num_tasks = n >= 1] the run is the run over the first
    [min n (number of discovered files)] files, in discovery order; with
    [num_tasks] 0 or [None] it is the run over all the discovered files.
    In both cases it returns one task result per such file, in order. *)
Theorem task_cap {U : Unicode} (path : Type) (stem : path -> str)
    (load_task : path -> Task.t) (chat : nat -> str -> call_outcome)
    (eval_files : list path) :
  (forall n, 1 <= n ->
     let kept :=
       firstn (Nat.min (Z.to_nat n) (length eval_files)) eval_files in
     run_evaluation path stem load_task chat eval_files (Some n)
     = run_tasks path stem load_task chat fresh_world no_results kept /\
     exists results w,
       run_evaluation path stem load_task chat eval_files (Some n)
       = Ok (results, w) /\
       map TaskResult.task_id (Results.tasks results) = map stem kept) /\
  (forall num_tasks, num_tasks = None \/ num_tasks = Some 0 ->
     run_evaluation path stem load_task chat eval_files num_tasks
     = run_tasks path stem load_task chat fresh_world no_results eval_files /\
     exists results w,
       run_evaluation path stem load_task chat eval_files num_tasks
       = Ok (results, w) /\
       map TaskResult.task_id (Results.tasks results) = map stem eval_files).
Proof.
  assert (Hids : forall num_tasks,
    exists results w,
      run_evaluation path stem load_task chat eval_files num_tasks
      = Ok (results, w) /\
      map TaskResult.task_id (Results.tasks results)
      = map stem (firstn (cap eval_files num_tasks) eval_files)).
  { intros num_tasks.
    destruct (run_evaluation_spec path stem load_task chat eval_files
                num_tasks) as (results & w & Hrun & Hnew & _).
    exists results, w. split; [exact Hrun |].
    induction Hnew as [| p tr ps trs [Hid _] _ IH]; [reflexivity |].
    cbn [map]. rewrite Hid, IH. reflexivity. }
  split.
  - intros n Hn kept.
    assert (Hcap : cap eval_files (Some n)
                   = Nat.min (Z.to_nat n) (length eval_files)).
    { unfold cap.
      assert (E0 : (n =? 0) = false) by (apply Z.eqb_neq; lia).
      assert (E1 : (0 <? n) = true) by (apply Z.ltb_lt; lia).
      rewrite E0, E1. reflexivity. }
    split.
    + rewrite run_evaluation_cap, Hcap. reflexivity.
    + specialize (Hids (Some n)). rewrite Hcap in Hids. exact Hids.
  - intros num_tasks Hnum.
    assert (Hcap : cap eval_files num_tasks = length eval_files).
    { destruct Hnum as [-> | ->]; reflexivity. }
    split.
    + rewrite run_evaluation_cap, Hcap, firstn_all. reflexivity.
    + specialize (Hids num_tasks). rewrite Hcap, firstn_all in Hids.
      exact Hids.
Qed.

(** A cap of zero runs every file; a cap of one runs the first. *)
Example cap_zero_runs_all :
  cap [1; 2; 3] (Some 0) = 3%nat /\ cap [1; 2; 3] None = 3%nat /\
  cap [1; 2; 3] (Some 1) = 1%nat /\ cap [1; 2; 3] (Some 5) = 3%nat.
Proof. repeat split. Qed.

(** * Further properties of the codec *)

Section DecodeMore.
Context {U : Unicode}.

Lemma isdigit_LF : isdigit LF = false.
Proof.
  destruct (isdigit LF) eqn:E; [| reflexivity].
  apply isdigit_not_isspace in E. rewrite isspace_LF in E. discriminate.
Qed.

(** Every character other than the line feed lies in one of the lines. *)
Lemma split_lines_cover (s : str) (c : N) :
  In c s -> c <> LF -> exists l, In l (split_lines s) /\ In c l.
Proof.
  induction s as [| a s IH]; intros Hc Hne; [destruct Hc |].
  cbn [split_lines]. destruct (a =? LF)%N eqn:E.
  - apply N.eqb_eq in E. destruct Hc as [<- | Hc]; [congruence |].
    destruct (IH Hc Hne) as (l & Hl & Hin). exists l. split; [right |]; assumption.
  - destruct (split_lines s) as [| l0 ls] eqn:Es.
    + destruct Hc as [<- | Hc].
      * exists [a]. split; left; reflexivity.
      * destruct (IH Hc Hne) as (l & [] & _).
    + destruct Hc as [<- | Hc].
      * exists (a :: l0). split; left; reflexivity.
      * destruct (IH Hc Hne) as (l & [<- | Hl] & Hin).
        -- exists (a :: l0). split; [left; reflexivity | right; exact Hin].
        -- exists l. split; [right; exact Hl | exact Hin].
Qed.

Lemma collect_lines_has_digit (todo acc : list str) :
  Forall (fun l => has_digit l = true) acc ->
  Forall (fun l => has_digit l = true) (collect_lines acc todo).
Proof.
  revert acc. induction todo as [| l todo IH]; intros acc Hacc; simpl.
  - exact Hacc.
  - destruct (has_digit l) eqn:E.
    + apply IH. apply Forall_app. split; [exact Hacc |].
      constructor; [exact E | constructor].
    + destruct acc; [apply IH; constructor | exact Hacc].
Qed.

Lemma collect_lines_nil (todo : list str) :
  collect_lines [] todo = [] -> Forall (fun l => has_digit l = false) todo.
Proof.
  induction todo as [| l todo IH]; intros H; [constructor |].
  simpl in H. destruct (has_digit l) eqn:E.
  - rewrite (collect_lines_acc [l]) in H by discriminate. discriminate.
  - constructor; [exact E | apply IH; exact H].
Qed.

Lemma collect_lines_sub (todo acc : list str) (l : str) :
  In l (collect_lines acc todo) -> In l acc \/ In l todo.
Proof.
  revert acc. induction todo as [| l0 todo IH]; intros acc H; simpl in H.
  - left. exact H.
  - destruct (has_digit l0).
    + apply IH in H as [H | H]; [| right; right; exact H].
      apply in_app_or in H as [H | [<- | []]];
        [left; exact H | right; left; reflexivity].
    + destruct acc as [| a acc]; [| left; exact H].
      apply IH in H as [H | H]; [left; exact H | right; right; exact H].
Qed.

Lemma collect_lines_length (todo acc : list str) :
  (length (collect_lines acc todo) <= length acc + length todo)%nat.
Proof.
  revert acc. induction todo as [| l todo IH]; intros acc; simpl; [lia |].
  destruct (has_digit l).
  - specialize (IH (acc ++ [l])). rewrite length_app in IH. simpl in IH. lia.
  - destruct acc; [specialize (IH []); simpl in *; lia | simpl; lia].
Qed.

Lemma build_grid_length (lines : list str) (g0 g : grid) :
  Forall (fun l => has_digit l = true) lines ->
  build_grid g0 lines = Ok g -> length g = (length g0 + length lines)%nat.
Proof.
  intros H. revert g0. induction H as [| l lines Hl _ IH]; intros g0 Hg.
  - simpl in Hg. injection Hg as <-. simpl. lia.
  - simpl in Hg. destruct (row_of_line l) as [r |] eqn:Er; [| discriminate].
    simpl in Hg. pose proof (row_of_line_nonempty l r Hl Er) as Hne.
    destruct r as [| v r]; [congruence |].
    apply IH in Hg. rewrite length_app in Hg. simpl in *. lia.
Qed.

(** The body raises exactly when a kept line fails to convert. *)
Lemma build_grid_raise (lines : list str) (g0 : grid) :
  (exists e, build_grid g0 lines = Raise e) <->
  (exists l e, In l lines /\ row_of_line l = Raise e).
Proof.
  revert g0. induction lines as [| l lines IH]; intros g0; simpl.
  - split; [intros [e He]; discriminate | intros (l & e & [] & _)].
  - destruct (row_of_line l) as [r | e0] eqn:Er; simpl.
    + rewrite IH. split.
      * intros (l' & e & Hin & He). exists l', e. split; [right |]; assumption.
      * intros (l' & e & [<- | Hin] & He); [congruence |].
        exists l', e. split; assumption.
    + split; [| intros _; exists e0; reflexivity].
      intros _. exists l, e0. split; [left; reflexivity | exact Er].
Qed.

Lemma int_digits_raise (tok : str) (acc : Z) :
  (exists e, int_digits acc tok = Raise e) <->
  (exists c, In c tok /\ decimal c = None).
Proof.
  revert acc. induction tok as [| c tok IH]; intros acc; simpl.
  - split; [intros [e He]; discriminate | intros (c & [] & _)].
  - destruct (decimal c) as [d |] eqn:E.
    + rewrite IH. split.
      * intros (c' & Hin & Hc). exists c'. split; [right |]; assumption.
      * intros (c' & [<- | Hin] & Hc); [congruence |].
        exists c'. split; assumption.
    + split; [| intros _; exists ValueError; reflexivity].
      intros _. exists c. split; [left; reflexivity | exact E].
Qed.

Lemma ints_of_raise (toks : list str) :
  Forall (fun tok => tok <> []) toks ->
  (exists e, ints_of toks = Raise e) <->
  (exists tok c, In tok toks /\ In c tok /\ decimal c = None).
Proof.
  induction 1 as [| tok toks Hne _ IH]; simpl.
  - split; [intros [e He]; discriminate | intros (t & c & [] & _)].
  - assert (Hpy : py_int tok = int_digits 0 tok)
      by (destruct tok; [congruence | reflexivity]).
    rewrite Hpy. destruct (int_digits 0 tok) as [v | e0] eqn:Ev; simpl.
    + assert (Hok : ~ exists c, In c tok /\ decimal c = None).
      { intros Hc. apply (int_digits_raise tok 0) in Hc as [e He]. congruence. }
      destruct (ints_of toks) as [vs | e1] eqn:Evs; simpl.
      * split; [intros [e He]; discriminate |].
        intros (t & c & [<- | Hin] & Hc & Hd).
        -- exfalso. apply Hok. eauto.
        -- assert (Hex : exists e, @Ok row vs = Raise e)
             by (apply IH; eauto).
           destruct Hex as [e He]. discriminate.
      * split; [| intros _; exists e1; reflexivity].
        intros _. assert (Hex : exists e, @Raise row e1 = Raise e) by eauto.
        apply IH in Hex as (t & c & Hin & Hc & Hd).
        exists t, c. split; [right; exact Hin | split; assumption].
    + split; [| intros _; exists e0; reflexivity].
      intros _.
      assert (Hex : exists e, int_digits 0 tok = Raise e) by eauto.
      apply int_digits_raise in Hex as (c & Hc & Hd).
      exists tok, c. split; [left; reflexivity | split; assumption].
Qed.

(** The characters of the tokens are the characters of the run being read
    and the characters of the text that are not blanks. *)
Lemma split_ws_from_chars (s cur : str) (c : N) :
  (exists tok, In tok (split_ws_from cur s) /\ In c tok) <->
  In c cur \/ (In c s /\ isspace c = false).
Proof.
  revert cur. induction s as [| a s IH]; intros cur; cbn [split_ws_from].
  - destruct cur as [| x cur'].
    + split; [intros (t & [] & _) | intros [[] | [[] _]]].
    + split.
      * intros (t & [<- | []] & Hc). left. apply in_rev. exact Hc.
      * intros [H | [[] _]].
        exists (rev (x :: cur')). split; [left; reflexivity |].
        apply in_rev in H. exact H.
  - destruct (isspace a) eqn:E.
    + destruct cur as [| x cur'].
      * rewrite IH. split.
        -- intros [[] | [Hc Hs]]. right. split; [right |]; assumption.
        -- intros [[] | [[<- | Hc] Hs]]; [congruence |].
           right. split; assumption.
      * split.
        -- intros (t & [<- | Ht] & Hc).
           ++ left. apply in_rev. exact Hc.
           ++ assert (Hex : exists tok, In tok (split_ws_from [] s) /\ In c tok)
                by eauto.
              apply IH in Hex as [[] | [Hc' Hs]].
              right. split; [right |]; assumption.
        -- intros [H | [[<- | Hc] Hs]].
           ++ exists (rev (x :: cur')). split; [left; reflexivity |].
              apply in_rev in H. exact H.
           ++ congruence.
           ++ assert (Hex : exists tok,
                        In tok (split_ws_from [] s) /\ In c tok).
              { apply IH. right. split; assumption. }
              destruct Hex as (t & Ht & Hct).
              exists t. split; [right; exact Ht | exact Hct].
    + rewrite IH. split.
      * intros [[<- | H] | [Hc Hs]].
        -- right. split; [left; reflexivity | exact E].
        -- left. exact H.
        -- right. split; [right |]; assumption.
      * intros [H | [[<- | Hc] Hs]].
        -- left. right. exact H.
        -- left. left. reflexivity.
        -- right. split; assumption.
Qed.

Lemma row_of_line_raise (line : str) :
  (exists e, row_of_line line = Raise e) <->
  (exists c, In c line /\ isdigit c = true /\ decimal c = None).
Proof.
  unfold row_of_line. rewrite ints_of_raise.
  - split.
    + intros (tok & c & Htok & Hc & Hd). exists c.
      pose proof (cleaned_line_tokens line) as Hall.
      rewrite Forall_forall in Hall. destruct (Hall tok Htok) as [_ Hdig].
      rewrite Forall_forall in Hdig.
      assert (Hex : exists t, In t (split_ws_from [] (cleaned_line line))
                              /\ In c t) by eauto.
      apply split_ws_from_chars in Hex as [[] | [Hin _]].
      apply filter_In in Hin as [Hin _].
      split; [exact Hin | split; [apply Hdig; exact Hc | exact Hd]].
    + intros (c & Hin & Hdig & Hd).
      assert (Hex : exists t, In t (split_ws_from [] (cleaned_line line))
                              /\ In c t).
      { apply split_ws_from_chars. right. split.
        - apply filter_In. split; [exact Hin |]. rewrite Hdig. reflexivity.
        - apply isdigit_not_isspace. exact Hdig. }
      destruct Hex as (t & Ht & Hct). exists t, c. auto.
  - eapply Forall_impl; [| apply cleaned_line_tokens].
    intros tok [Hne _]. exact Hne.
Qed.

End DecodeMore.

(** ** Characters that are neither digit nor blank *)

Lemma split_lines_not_nil (s : str) : split_lines s <> [].
Proof.
  destruct s as [| c s]; cbn [split_lines]; [discriminate |].
  destruct (c =? LF)%N; [discriminate |].
  destruct (split_lines s); discriminate.
Qed.

Lemma split_lines_filter (p : N -> bool) (s : str) :
  p LF = true ->
  split_lines (filter p s) = map (filter p) (split_lines s).
Proof.
  intros HLF. induction s as [| c s IH]; [reflexivity |].
  cbn [split_lines filter]. destruct (c =? LF)%N eqn:E.
  - apply N.eqb_eq in E. subst c. rewrite HLF. cbn [split_lines map filter].
    rewrite N.eqb_refl, IH. reflexivity.
  - pose proof (split_lines_not_nil s) as Hne.
    destruct (split_lines s) as [| l0 ls0]; [congruence |].
    cbn [map] in *. destruct (p c) eqn:Ep.
    + cbn [split_lines]. rewrite E, IH. cbn [filter]. rewrite Ep. reflexivity.
    + rewrite IH. cbn [filter]. rewrite Ep. reflexivity.
Qed.

Section NoiseFacts.
Context {U : Unicode}.

Lemma has_digit_cleaned_line (l : str) :
  has_digit (cleaned_line l) = has_digit l.
Proof.
  unfold has_digit, cleaned_line. induction l as [| c l IH]; [reflexivity |].
  cbn [filter existsb]. destruct (isdigit c) eqn:E; cbn [orb].
  - cbn [existsb]. rewrite E. reflexivity.
  - destruct (isspace c); [cbn [existsb]; rewrite E |]; exact IH.
Qed.

Lemma cleaned_line_idem (l : str) :
  cleaned_line (cleaned_line l) = cleaned_line l.
Proof.
  unfold cleaned_line. induction l as [| c l IH]; [reflexivity |].
  cbn [filter]. destruct (isdigit c || isspace c) eqn:E; [| exact IH].
  cbn [filter]. rewrite E, IH. reflexivity.
Qed.

Lemma collect_lines_map (f : str -> str) (todo acc : list str) :
  (forall l, has_digit (f l) = has_digit l) ->
  collect_lines (map f acc) (map f todo) = map f (collect_lines acc todo).
Proof.
  intros Hf. revert acc. induction todo as [| l todo IH]; intros acc;
    [reflexivity |].
  cbn [map collect_lines]. rewrite Hf. destruct (has_digit l).
  - rewrite <- IH, map_app. reflexivity.
  - destruct acc as [| a acc]; [apply (IH []) | reflexivity].
Qed.

Lemma build_grid_map (f : str -> str) (lines : list str) (g : grid) :
  (forall l, row_of_line (f l) = row_of_line l) ->
  build_grid g (map f lines) = build_grid g lines.
Proof.
  intros Hf. revert g. induction lines as [| l lines IH]; intros g;
    [reflexivity |].
  cbn [map build_grid]. rewrite Hf.
  destruct (row_of_line l) as [r | e]; [| reflexivity].
  cbn [bind]. apply IH.
Qed.

Lemma parse_body_cleaned (output : str) :
  parse_body (cleaned_line output) = parse_body output.
Proof.
  unfold parse_body, cleaned_line at 1.
  rewrite split_lines_filter
    by (rewrite isspace_LF; apply orb_true_r).
  fold cleaned_line.
  rewrite (collect_lines_map cleaned_line _ [] has_digit_cleaned_line).
  apply build_grid_map. intros l. unfold row_of_line.
  rewrite cleaned_line_idem. reflexivity.
Qed.

Lemma no_digit_chars (output : str) :
  collect_lines [] (split_lines output) = [] ->
  Forall (fun c => isdigit c = false) output.
Proof.
  intros H. apply collect_lines_nil in H. rewrite Forall_forall in H.
  apply Forall_forall. intros c Hc.
  destruct (N.eq_dec c LF) as [-> | Hne]; [apply isdigit_LF |].
  destruct (split_lines_cover output c Hc Hne) as (l & Hl & Hin).
  specialize (H l Hl). apply has_digit_false in H.
  rewrite Forall_forall in H. apply H. exact Hin.
Qed.

Lemma parse_body_shape (output : str) (g : grid) :
  parse_body output = Ok g ->
  Forall good_row g /\
  length g = length (collect_lines [] (split_lines output)).
Proof.
  unfold parse_body. intros H. split.
  - eapply build_grid_rows; [| exact H]. constructor.
  - apply build_grid_length in H; [exact H |].
    apply collect_lines_has_digit. constructor.
Qed.

End NoiseFacts.

Lemma str_int_chars (z : Z) :
  Forall (fun c => c = MINUS \/ is_ascii_digit c) (str_int z).
Proof.
  assert (Hpos : forall n, 0 <= n ->
            Forall (fun c => c = MINUS \/ is_ascii_digit c) (str_int n)).
  { intros n Hn.
    destruct (str_int_nonneg (U := latin1) n Hn) as (_ & Hall & _).
    eapply Forall_impl; [| exact Hall]. intros c Hc. right. exact Hc. }
  destruct (Z.ltb_spec z 0) as [Hneg | Hge]; [| apply Hpos; exact Hge].
  unfold str_int. assert (E : (z <? 0) = true) by (apply Z.ltb_lt; exact Hneg).
  rewrite E. constructor; [left; reflexivity |].
  specialize (Hpos (- z) ltac:(lia)). unfold str_int in Hpos.
  assert (E' : (- z <? 0) = false) by (apply Z.ltb_ge; lia).
  rewrite E' in Hpos. exact Hpos.
Qed.

Lemma format_row_any_no_LF (r : row) :
  ~ In LF (join [SPACE] (map str_int r)).
Proof.
  intros Hin.
  assert (Hall : Forall (fun c => c <> LF) (join [SPACE] (map str_int r))).
  { apply join_Forall.
    - constructor; [discriminate | constructor].
    - apply Forall_map. apply Forall_forall. intros z _.
      eapply Forall_impl; [| apply str_int_chars].
      intros c [-> | Hc]; [discriminate | apply ascii_digit_not_LF, Hc]. }
  rewrite Forall_forall in Hall. exact (Hall LF Hin eq_refl).
Qed.

(** ** Codec: further theorems *)

(** X1: the round trip holds for every grid whose rows are not empty and
    whose values are not negative and have at most [safe_digits] digits,
    whether or not the rows have one length. *)
Theorem parse_format_any_width {U : Unicode} (g : grid) :
  Forall (fun r => r <> [] /\
                   Forall (fun v => 0 <= v < 10 ^ Z.of_nat safe_digits) r) g ->
  parse_model_output (format_grid g) = Ok g.
Proof.
  intros H. apply parse_format_grid.
  eapply Forall_impl; [| exact H]. intros r [Hne Hr]. split; [exact Hne |].
  eapply Forall_impl; [| exact Hr]. intros v Hv. apply Hv.
Qed.

Lemma parse_format_any_width_witness :
  parse_model_output (U := latin1) (format_grid [[120; 0; 7]; [45]])
  = Ok [[120; 0; 7]; [45]].
Proof.
  apply (parse_format_any_width (U := latin1) [[120; 0; 7]; [45]]).
  repeat constructor; try discriminate; vm_compute; reflexivity.
Defined.

(** The encoding is not injective on grids with an empty row. *)
Example format_grid_collision : format_grid [] = format_grid [[]].
Proof. reflexivity. Qed.

Lemma format_grid_inj (g1 g2 : grid) :
  Forall good_row g1 -> Forall good_row g2 ->
  format_grid g1 = format_grid g2 -> g1 = g2.
Proof.
  intros H1 H2 E.
  pose proof (parse_format_grid (U := latin1) g1 H1) as P1.
  pose proof (parse_format_grid (U := latin1) g2 H2) as P2.
  rewrite E in P1. rewrite P1 in P2. injection P2 as P2. exact P2.
Qed.

(** X2: [format_grid] is injective on the grids whose rows are not empty
    and whose values are not negative: two such grids with the same text
    are equal. *)
Theorem format_grid_injective (g1 g2 : grid) :
  Forall good_row g1 -> Forall good_row g2 ->
  format_grid g1 = format_grid g2 -> g1 = g2.
Proof. apply format_grid_inj. Qed.

Lemma format_grid_injective_witness : [[3; 14]; [15]] = [[3; 14]; [15]].
Proof.
  apply (format_grid_injective [[3; 14]; [15]] [[3; 14]; [15]]).
  - repeat constructor; try discriminate; lia.
  - repeat constructor; try discriminate; lia.
  - reflexivity.
Defined.

(** X3: what decoding returns is a fixed point of encoding then decoding:
    for every text, the grid read from it is read back from its own
    encoding. *)
Theorem parse_format_parse {U : Unicode} (output : str) :
  exists g, parse_model_output output = Ok g /\
            parse_model_output (format_grid g) = Ok g.
Proof.
  destruct (parse_model_output_returns output) as [g Hg].
  exists g. split; [exact Hg |].
  apply parse_format_grid. eapply parse_model_output_rows. exact Hg.
Qed.

(** X4: a decoded grid has no empty row and at most as many rows as the
    text has lines; when the body of the [try] returns, it has exactly one
    row per line of the first block of digit lines. *)
Theorem parse_model_output_shape {U : Unicode} (output : str) :
  exists g, parse_model_output output = Ok g /\
    Forall (fun r => r <> []) g /\
    (length g <= length (split_lines output))%nat /\
    (forall g', parse_body output = Ok g' ->
       g = g' /\
       length g = length (collect_lines [] (split_lines output))).
Proof.
  unfold parse_model_output, try_except.
  pose proof (collect_lines_length (split_lines output) []) as Hlen.
  cbn [length] in Hlen.
  destruct (parse_body output) as [g | e] eqn:E.
  - destruct (parse_body_shape output g E) as [Hrows Hcount].
    exists g. split; [reflexivity |]. split; [| split].
    + eapply Forall_impl; [| exact Hrows]. intros r [Hne _]. exact Hne.
    + lia.
    + intros g' [= <-]. split; [reflexivity | exact Hcount].
  - exists []. split; [reflexivity |]. split; [constructor |].
    split; [cbn [length]; lia | intros g' Hg'; discriminate].
Qed.

(** X5: decoding returns the empty grid in two cases only: the text has no
    digit, or the body of the [try] raised. *)
Theorem parse_model_output_empty_iff {U : Unicode} (output : str) :
  parse_model_output output = Ok [] <->
  Forall (fun c => isdigit c = false) output \/
  (exists e, parse_body output = Raise e).
Proof.
  split.
  - unfold parse_model_output, try_except.
    destruct (parse_body output) as [g | e] eqn:E; [| right; eauto].
    intros [= ->]. left.
    destruct (parse_body_shape output [] E) as [_ Hcount].
    apply no_digit_chars.
    destruct (collect_lines [] (split_lines output)); [reflexivity |].
    discriminate.
  - intros [H | [e H]]; unfold parse_model_output.
    + rewrite (parse_body_no_digit output H). reflexivity.
    + rewrite H. reflexivity.
Qed.

(** X6: when a line of the first block of digit lines holds a character
    that [isdigit] accepts and [int()] rejects, the body of the [try]
    raises; and when it raises although none of these lines has more than
    [safe_digits] characters, some line of the block holds such a
    character. *)
Theorem parse_body_raises_iff {U : Unicode} (output : str) :
  ((exists l c,
      In l (collect_lines [] (split_lines output)) /\ In c l /\
      isdigit c = true /\ decimal c = None) ->
   parse_body output = Raise ValueError) /\
  (Forall (fun l => (length l <= safe_digits)%nat)
          (collect_lines [] (split_lines output)) ->
   parse_body output = Raise ValueError ->
   exists l c,
     In l (collect_lines [] (split_lines output)) /\ In c l /\
     isdigit c = true /\ decimal c = None).
Proof.
  unfold parse_body. split.
  - intros (l & c & Hl & Hc & Hdig & Hdec).
    assert (Hrow : exists e, row_of_line l = Raise e).
    { apply row_of_line_raise. exists c. auto. }
    destruct Hrow as [e He].
    assert (Hex : exists e',
              build_grid [] (collect_lines [] (split_lines output))
              = Raise e').
    { apply build_grid_raise. exists l, e. auto. }
    destruct Hex as [[] Hex]. exact Hex.
  - intros _ H.
    assert (Hex : exists e,
              build_grid [] (collect_lines [] (split_lines output)) = Raise e)
      by eauto.
    apply build_grid_raise in Hex as (l & e & Hl & He).
    assert (Hrow : exists e', row_of_line l = Raise e') by eauto.
    apply row_of_line_raise in Hrow as (c & Hc & Hdig & Hdec).
    exists l, c. auto.
Qed.

(** X7: removing from a text every character that is neither a digit nor a
    blank does not change the grid decoded from it. *)
Theorem parse_model_output_ignores_noise {U : Unicode} (output : str) :
  parse_model_output (filter (fun c => isdigit c || isspace c) output)
  = parse_model_output output.
Proof.
  unfold parse_model_output.
  change (filter (fun c => isdigit c || isspace c) output)
    with (cleaned_line output).
  rewrite parse_body_cleaned. reflexivity.
Qed.

(** X8: for every grid with at least one row, whose values have at most
    [safe_digits] digits, the text of [format_grid] splits at line feeds
    into exactly one line per row, the values of the row joined by single
    spaces. *)
Theorem format_grid_lines (g : grid) :
  g <> [] -> Forall (Forall short_value) g ->
  split_lines (format_grid g)
  = map (fun r => join [SPACE] (map str_int r)) g.
Proof.
  intros Hne _. unfold format_grid. apply split_lines_join.
  - destruct g; [congruence | discriminate].
  - apply Forall_map. apply Forall_forall. intros r _.
    apply format_row_any_no_LF.
Qed.

Lemma format_grid_lines_witness :
  split_lines (format_grid [[-3; 10]; []; [7]])
  = map (fun r => join [SPACE] (map str_int r)) [[-3; 10]; []; [7]].
Proof.
  apply (format_grid_lines [[-3; 10]; []; [7]]); [discriminate |].
  repeat constructor; vm_compute; reflexivity.
Defined.

(** * Further properties of the scorer and of the driver *)

Lemma evaluate_task_sym (task task' : Task.t) (a b : grid) :
  evaluate_task task a b = evaluate_task task' b a.
Proof.
  destruct (evaluate_task task a b) eqn:E1;
    destruct (evaluate_task task' b a) eqn:E2; try reflexivity.
  - apply evaluate_task_true in E1 as [Hne <-].
    assert (H : evaluate_task task' a a = true)
      by (apply evaluate_task_true; auto).
    congruence.
  - apply evaluate_task_true in E2 as [Hne <-].
    assert (H : evaluate_task task b b = true)
      by (apply evaluate_task_true; auto).
    congruence.
Qed.

Lemma count_correct_app (l l' : list Detail.t) :
  count_correct (l ++ l') = count_correct l + count_correct l'.
Proof.
  unfold count_correct. rewrite filter_app, length_app. lia.
Qed.

Lemma format_grid_not_empty {U : Unicode} (g : grid) :
  g <> [] -> Forall good_row g -> format_grid g <> [].
Proof.
  intros Hne H E. pose proof (parse_format_grid g H) as P.
  rewrite E in P. change (Ok [] = Ok g) in P.
  injection P as P. congruence.
Qed.

Section DriverMore.
Context {U : Unicode}.
Variable path : Type.
Variable stem : path -> str.
Variable load_task : path -> Task.t.
Variable chat : nat -> str -> call_outcome.

(** An answered test case: the loop goes on from the recorded outcome. *)
Lemma run_test_cases_answer (task : Task.t) (n : nat)
    (task_result : TaskResult.t) (test_idx : Z) (test_case : Pair.t)
    (rest : list Pair.t) (parsed_output : grid) :
  call_model_with_timeout (chat n) (create_prompt task (Pair.input test_case))
  <> [] ->
  parse_model_output
    (call_model_with_timeout (chat n)
       (create_prompt task (Pair.input test_case)))
  = Ok parsed_output ->
  run_test_cases chat task n task_result test_idx (test_case :: rest)
  = run_test_cases chat task (S n)
      (record_outcome task task_result test_idx test_case parsed_output)
      (test_idx + 1) rest.
Proof.
  intros Hne Hparse. cbn [run_test_cases].
  destruct (call_model_with_timeout (chat n)
              (create_prompt task (Pair.input test_case))) as [| c resp] eqn:E;
    [congruence |].
  cbn [is_nil]. rewrite Hparse. reflexivity.
Qed.

(** The loop over the test cases [cases], the cases [done] being behind. *)
Lemma run_test_cases_details (task : Task.t) (cases done : list Pair.t)
    (n : nat) (task_result : TaskResult.t) :
  exists task_result' new,
    run_test_cases chat task n task_result (Z.of_nat (length done)) cases
    = Ok ((n + length cases)%nat, task_result') /\
    TaskResult.task_id task_result' = TaskResult.task_id task_result /\
    TaskResult.total task_result' = TaskResult.total task_result /\
    TaskResult.details task_result' = TaskResult.details task_result ++ new /\
    TaskResult.correct task_result'
    = TaskResult.correct task_result + count_correct new /\
    Forall (fun d => Z.of_nat (length done) < Detail.test_case d /\
                     detail_sound chat task (done ++ cases) d) new /\
    StronglySorted (fun a b => Detail.test_case a < Detail.test_case b) new.
Proof.
  revert done n task_result.
  induction cases as [| test_case rest IH]; intros done n task_result.
  - exists task_result, []. cbn [run_test_cases length].
    rewrite Nat.add_0_r, app_nil_r. unfold count_correct. cbn.
    repeat split; try lia; constructor.
  - assert (Hidx : Z.of_nat (length done) + 1
                   = Z.of_nat (length (done ++ [test_case]))).
    { rewrite length_app. cbn [length]. lia. }
    assert (Happ : (done ++ [test_case]) ++ rest = done ++ test_case :: rest).
    { rewrite <- app_assoc. reflexivity. }
    destruct (call_model_with_timeout (chat n)
                (create_prompt task (Pair.input test_case))) as [| c resp] eqn:E.
    + rewrite (run_test_cases_skip chat task n task_result _ test_case rest E).
      rewrite Hidx.
      destruct (IH (done ++ [test_case]) (S n) task_result)
        as (tr' & new & Hrun & Hid & Htot & Hdet & Hcor & Hall & Hsort).
      exists tr', new. rewrite Hrun. cbn [length].
      split; [do 2 f_equal; lia |].
      repeat split; try assumption.
      eapply Forall_impl; [| exact Hall].
      intros d [Hlt Hd]. rewrite <- Hidx in Hlt. rewrite Happ in Hd.
      split; [lia | exact Hd].
    + destruct (parse_model_output_returns (c :: resp)) as [parsed Hparsed].
      assert (Hne : call_model_with_timeout (chat n)
                      (create_prompt task (Pair.input test_case)) <> [])
        by (rewrite E; discriminate).
      rewrite (run_test_cases_answer task n task_result _ test_case rest parsed
                 Hne) by (rewrite E; exact Hparsed).
      rewrite Hidx.
      destruct (IH (done ++ [test_case]) (S n)
                  (record_outcome task task_result
                     (Z.of_nat (length done)) test_case parsed))
        as (tr' & new & Hrun & Hid & Htot & Hdet & Hcor & Hall & Hsort).
      set (d0 := {|
        Detail.test_case := Z.of_nat (length done) + 1;
        Detail.correct :=
          evaluate_task task parsed (Pair.output test_case);
        Detail.model_output := parsed;
        Detail.expected_output := Pair.output test_case |}).
      exists tr', (d0 :: new). rewrite Hrun. cbn [length].
      split; [do 2 f_equal; lia |].
      cbn [record_outcome TaskResult.task_id TaskResult.total
           TaskResult.details TaskResult.correct] in Hid, Htot, Hdet, Hcor.
      split; [exact Hid |]. split; [exact Htot |].
      split; [rewrite Hdet, <- app_assoc; reflexivity |].
      split.
      { rewrite Hcor. change (d0 :: new) with ([d0] ++ new).
        rewrite count_correct_app. unfold count_correct at 2.
        cbn [filter]. fold d0. cbn [Detail.correct d0].
        destruct (evaluate_task task parsed (Pair.output test_case));
          cbn [length]; lia. }
      split.
      { constructor.
        - split; [cbn [Detail.test_case d0]; lia |].
          split; [cbn [Detail.test_case d0]; lia |].
          exists test_case, n. cbn [Detail.test_case Detail.expected_output
                                   Detail.model_output Detail.correct d0].
          replace (Z.to_nat (Z.of_nat (length done) + 1 - 1))
            with (length done + 0)%nat by lia.
          rewrite nth_error_app2 by lia.
          replace (length done + 0 - length done)%nat with 0%nat by lia.
          rewrite E. repeat split; try reflexivity; try discriminate.
          exact Hparsed.
        - eapply Forall_impl; [| exact Hall].
          intros d [Hlt Hd]. rewrite <- Hidx in Hlt. rewrite Happ in Hd.
          split; [lia | exact Hd]. }
      constructor; [exact Hsort |].
      eapply Forall_impl; [| exact Hall].
      intros d [Hlt _]. rewrite <- Hidx in Hlt. cbn [Detail.test_case d0]. lia.
Qed.

Lemma run_task_full (w : world) (results : Results.t) (task_path : path) :
  exists task_result,
    run_task path stem load_task chat w results task_path
    = Ok (add_task_result results task_result,
          {| calls :=
               (calls w + length (Task.test (load_task task_path)))%nat;
             partial_file :=
               partial_file w ++ [add_task_result results task_result] |}) /\
    TaskResult.task_id task_result = stem task_path /\
    task_coherent (load_task task_path) task_result /\
    task_result_sound chat (load_task task_path) task_result.
Proof.
  destruct (run_task_spec path stem load_task chat w results task_path)
    as (tr & Hrun & Hid & Hcoh & _).
  exists tr. split; [exact Hrun |]. split; [exact Hid |].
  split; [exact Hcoh |].
  unfold run_task in Hrun.
  destruct (run_test_cases_details (load_task task_path)
              (Task.test (load_task task_path)) [] (calls w)
              {| TaskResult.task_id := stem task_path;
                 TaskResult.correct := 0;
                 TaskResult.total :=
                   Z.of_nat (length (Task.test (load_task task_path)));
                 TaskResult.details := [] |})
    as (tr' & new & Hloop & _ & _ & Hdet & Hcor & Hall & Hsort).
  cbn [length] in Hloop. change (Z.of_nat 0) with 0 in Hloop.
  rewrite Hloop in Hrun. cbn [bind] in Hrun.
  assert (Htasks : Results.tasks results ++ [tr']
                   = Results.tasks results ++ [tr]).
  { injection Hrun. intros. assumption. }
  apply app_inv_head in Htasks. injection Htasks as ->.
  cbn [TaskResult.details TaskResult.correct app] in Hdet, Hcor.
  unfold task_result_sound. rewrite Hdet, Hcor.
  split; [lia |]. split; [exact Hsort |].
  eapply Forall_impl; [| exact Hall]. intros d [_ Hd]. exact Hd.
Qed.

Lemma run_tasks_full (files : list path) (w : world) (results : Results.t) :
  exists new results' w' snapshots,
    run_tasks path stem load_task chat w results files = Ok (results', w') /\
    Results.tasks results' = Results.tasks results ++ new /\
    Forall2 (fun task_path task_result =>
               task_result_sound chat (load_task task_path) task_result)
            files new /\
    Results.total results'
    = Results.total results + Z.of_nat (declared_cases load_task files) /\
    calls w' = (calls w + declared_cases load_task files)%nat /\
    partial_file w' = partial_file w ++ snapshots /\
    length snapshots = length files /\
    (files <> [] -> exists before, snapshots = before ++ [results']).
Proof.
  revert w results.
  induction files as [| task_path rest IH]; intros w results.
  - exists [], results, w, []. cbn [run_tasks length].
    unfold declared_cases. cbn [flat_map length].
    rewrite !app_nil_r, Nat.add_0_r, Z.add_0_r.
    repeat split; try constructor. congruence.
  - cbn [run_tasks].
    destruct (run_task_full w results task_path)
      as (tr & -> & _ & [Htot _] & Hsound).
    cbn [bind].
    match goal with
    | |- context [run_tasks path stem load_task chat ?w1 ?r1 rest] =>
        destruct (IH w1 r1)
          as (new & results' & w' & snaps & Hrun & Htasks & Hnew & Htotal
              & Hcalls & Hpart & Hlen & Hlast)
    end.
    rewrite Hrun.
    cbn [add_task_result Results.tasks Results.total calls partial_file]
      in Htasks, Htotal, Hcalls, Hpart.
    exists (tr :: new), results', w',
      (add_task_result results tr :: snaps).
    assert (Hdecl : declared_cases load_task (task_path :: rest)
                    = (length (Task.test (load_task task_path))
                       + declared_cases load_task rest)%nat).
    { unfold declared_cases. cbn [flat_map]. apply length_app. }
    split; [reflexivity |].
    split; [rewrite Htasks, <- app_assoc; reflexivity |].
    split; [constructor; assumption |].
    split; [rewrite Htotal, Hdecl, Htot; lia |].
    split; [rewrite Hcalls, Hdecl; lia |].
    split; [rewrite Hpart, <- app_assoc; reflexivity |].
    split; [cbn [length]; lia |].
    intros _. destruct rest as [| p rest'].
    + cbn [run_tasks] in Hrun. injection Hrun as <- _.
      destruct snaps; [| discriminate].
      exists []. reflexivity.
    + destruct (Hlast ltac:(discriminate)) as [before ->].
      exists (add_task_result results tr :: before). reflexivity.
Qed.

Lemma run_tasks_app (files files' : list path) (w : world)
    (results : Results.t) :
  run_tasks path stem load_task chat w results (files ++ files')
  = '(results', w') <- run_tasks path stem load_task chat w results files ;;
    run_tasks path stem load_task chat w' results' files'.
Proof.
  revert w results. induction files as [| p files IH]; intros w results.
  - reflexivity.
  - cbn [app run_tasks].
    destruct (run_task path stem load_task chat w results p)
      as [[r1 w1] | e]; [| reflexivity].
    cbn [bind]. apply IH.
Qed.

End DriverMore.

Lemma declared_cases_zero {path : Type} (load_task : path -> Task.t)
    (files : list path) :
  declared_cases load_task files = 0%nat <->
  forall p, In p files -> Task.test (load_task p) = [].
Proof.
  unfold declared_cases. induction files as [| q files IH]; cbn [flat_map].
  - split; [intros _ p [] | reflexivity].
  - rewrite length_app. split.
    + intros H p [<- | Hp].
      * destruct (Task.test (load_task q)); [reflexivity | simpl in H; lia].
      * apply IH; [lia | exact Hp].
    + intros H. rewrite (H q) by (left; reflexivity).
      apply IH. intros p Hp. apply H. right. exact Hp.
Qed.

Lemma declared_cases_pos {path : Type} (load_task : path -> Task.t)
    (files : list path) :
  declared_cases load_task files <> 0%nat <->
  exists p, In p files /\ Task.test (load_task p) <> [].
Proof.
  unfold declared_cases. induction files as [| q files IH]; cbn [flat_map].
  - split; [intros H; exfalso; apply H; reflexivity | intros (p & [] & _)].
  - rewrite length_app. split.
    + intros H. destruct (Task.test (load_task q)) as [| c cs] eqn:E.
      * destruct IH as [IH _]. destruct IH as (p & Hp & Hne).
        { simpl in H. exact H. }
        exists p. split; [right; exact Hp | exact Hne].
      * exists q. split; [left; reflexivity | rewrite E; discriminate].
    + intros (p & [<- | Hp] & Hne).
      * destruct (Task.test (load_task q)); [congruence | simpl; lia].
      * assert (length (flat_map (fun task_path : path =>
                  Task.test (load_task task_path)) files) <> 0%nat)
          by (apply IH; eauto).
        lia.
Qed.

Lemma create_prompt_closed (task : Task.t) (test_input : grid) :
  create_prompt task test_input
  = prompt_head ++ example_blocks 1 (Task.train task)
    ++ query_block test_input ++ prompt_rules.
Proof.
  unfold create_prompt, query_block. change 1 with (Z.of_nat 1).
  rewrite (add_examples_blocks (Task.train task) prompt_head 1).
  repeat rewrite <- app_assoc. reflexivity.
Qed.

(** ** Scorer and prompt: further theorems *)

(** X9: the scorer is symmetric in its two grids, whatever the task
    argument: swapping candidate and expected grid gives the same answer. *)
Theorem evaluate_task_symmetric (task task' : Task.t) (a b : grid) :
  evaluate_task task a b = evaluate_task task' b a.
Proof. apply evaluate_task_sym. Qed.

(** X10: a test case that some model answer scores correct has an
    expected grid with a row, no empty row and no negative value, since no
    text decodes to any other grid; and every such expected grid whose
    values have at most [safe_digits] digits is scored correct by some
    answer. *)
Theorem scorable_grids {U : Unicode} (task : Task.t) (expected : grid) :
  ((exists output parsed_output,
      parse_model_output output = Ok parsed_output /\
      evaluate_task task parsed_output expected = true) ->
   expected <> [] /\
   Forall (fun r => r <> [] /\ Forall (fun v => 0 <= v) r) expected) /\
  (expected <> [] ->
   Forall (fun r => r <> [] /\
                    Forall (fun v => 0 <= v < 10 ^ Z.of_nat safe_digits) r)
          expected ->
   exists output parsed_output,
     parse_model_output output = Ok parsed_output /\
     evaluate_task task parsed_output expected = true).
Proof.
  split.
  - intros (output & parsed & Hparse & Hscore).
    apply evaluate_task_true in Hscore as [Hne <-].
    split; [exact Hne |]. eapply parse_model_output_rows. exact Hparse.
  - intros Hne Hgood. exists (format_grid expected), expected.
    split.
    + apply parse_format_grid. eapply Forall_impl; [| exact Hgood].
      intros r [Hr Hv]. split; [exact Hr |].
      eapply Forall_impl; [| exact Hv]. intros v Hb. apply Hb.
    + apply evaluate_task_true. split; [exact Hne | reflexivity].
Qed.

(** X19: for one task, two test inputs whose rows are not empty and whose
    values are not negative get the same prompt only if they are equal. *)
Theorem create_prompt_injective (task : Task.t) (g1 g2 : grid) :
  Forall good_row g1 -> Forall good_row g2 ->
  create_prompt task g1 = create_prompt task g2 -> g1 = g2.
Proof.
  intros H1 H2 E. rewrite !create_prompt_closed in E.
  apply app_inv_head in E. apply app_inv_head in E.
  apply app_inv_tail in E. unfold query_block in E.
  apply app_inv_head in E. apply app_inv_head in E.
  apply app_inv_tail in E. apply format_grid_inj; assumption.
Qed.

Lemma create_prompt_injective_witness : [[1; 1]; [0; 0]] = [[1; 1]; [0; 0]].
Proof.
  apply (create_prompt_injective sample_task [[1; 1]; [0; 0]]
           [[1; 1]; [0; 0]]).
  - repeat constructor; try discriminate; lia.
  - repeat constructor; try discriminate; lia.
  - reflexivity.
Defined.

(** ** Driver: further theorems *)

Section DriverTheorems.
Context {U : Unicode}.
Variable path : Type.
Variable stem : path -> str.
Variable load_task : path -> Task.t.
Variable chat : nat -> str -> call_outcome.

(** X11: when the model answers the encoding of the expected grid, and
    that grid has a row, no empty row and no negative value, the test case
    is recorded as correct: the correct count grows by one and a detail with
    the flag true and the expected grid as model output is appended. *)
Theorem right_answer_recorded (task : Task.t) (n : nat)
    (task_result : TaskResult.t) (test_idx : Z) (test_case : Pair.t)
    (rest : list Pair.t) :
  Pair.output test_case <> [] ->
  Forall good_row (Pair.output test_case) ->
  chat n (create_prompt task (Pair.input test_case))
  = Content (format_grid (Pair.output test_case)) ->
  run_test_cases chat task n task_result test_idx (test_case :: rest)
  = run_test_cases chat task (S n)
      {| TaskResult.task_id := TaskResult.task_id task_result;
         TaskResult.correct := TaskResult.correct task_result + 1;
         TaskResult.total := TaskResult.total task_result;
         TaskResult.details :=
           TaskResult.details task_result ++
           [{| Detail.test_case := test_idx + 1;
               Detail.correct := true;
               Detail.model_output := Pair.output test_case;
               Detail.expected_output := Pair.output test_case |}] |}
      (test_idx + 1) rest.
Proof.
  intros Hne Hgood Hchat.
  assert (Hresp : call_model_with_timeout (chat n)
                    (create_prompt task (Pair.input test_case))
                  = format_grid (Pair.output test_case)).
  { unfold call_model_with_timeout. rewrite Hchat. reflexivity. }
  rewrite (run_test_cases_answer chat task n task_result test_idx test_case
             rest (Pair.output test_case)).
  - unfold record_outcome.
    assert (Hs : evaluate_task task (Pair.output test_case)
                   (Pair.output test_case) = true)
      by (apply evaluate_task_true; auto).
    rewrite Hs. reflexivity.
  - rewrite Hresp. apply format_grid_not_empty; assumption.
  - rewrite Hresp. apply parse_format_grid. exact Hgood.
Qed.

(** X12: an answer that is not empty and has no digit (blanks only, say)
    is not skipped: the test case is recorded as incorrect, with the empty
    grid as model output, whatever the expected grid. *)
Theorem digitless_answer_recorded (task : Task.t) (n : nat)
    (task_result : TaskResult.t) (test_idx : Z) (test_case : Pair.t)
    (rest : list Pair.t) (text : str) :
  text <> [] ->
  Forall (fun c => isdigit c = false) text ->
  chat n (create_prompt task (Pair.input test_case)) = Content text ->
  run_test_cases chat task n task_result test_idx (test_case :: rest)
  = run_test_cases chat task (S n)
      {| TaskResult.task_id := TaskResult.task_id task_result;
         TaskResult.correct := TaskResult.correct task_result;
         TaskResult.total := TaskResult.total task_result;
         TaskResult.details :=
           TaskResult.details task_result ++
           [{| Detail.test_case := test_idx + 1;
               Detail.correct := false;
               Detail.model_output := [];
               Detail.expected_output := Pair.output test_case |}] |}
      (test_idx + 1) rest.
Proof.
  intros Hne Hnodigit Hchat.
  assert (Hresp : call_model_with_timeout (chat n)
                    (create_prompt task (Pair.input test_case)) = text).
  { unfold call_model_with_timeout. rewrite Hchat. reflexivity. }
  rewrite (run_test_cases_answer chat task n task_result test_idx test_case
             rest []).
  - reflexivity.
  - rewrite Hresp. exact Hne.
  - rewrite Hresp. unfold parse_model_output.
    rewrite (parse_body_no_digit text Hnodigit). reflexivity.
Qed.

(** X13: a call that succeeds with an empty content is handled as a call
    that failed: nothing is recorded for the test case and the loop goes on
    with the next one. *)
Theorem empty_content_skipped (task : Task.t) (n : nat)
    (task_result : TaskResult.t) (test_idx : Z) (test_case : Pair.t)
    (rest : list Pair.t) :
  chat n (create_prompt task (Pair.input test_case)) = Content [] ->
  run_test_cases chat task n task_result test_idx (test_case :: rest)
  = run_test_cases chat task (S n) task_result (test_idx + 1) rest.
Proof.
  intros Hchat. apply run_test_cases_skip.
  unfold call_model_with_timeout. rewrite Hchat. reflexivity.
Qed.

(** X14: in what a run returns, every task result tells the truth about
    its task: its correct count is the number of its details flagged
    correct, its details are in increasing order of test case number, and
    each detail carries the 1-based position of a test case of the task,
    the expected grid of that test case, the grid decoded from a non-empty
    answer to the prompt of that test case, and the scorer's verdict on
    these two grids. *)
Theorem details_sound (eval_files : list path) (num_tasks : option Z) :
  exists results w,
    run_evaluation path stem load_task chat eval_files num_tasks
    = Ok (results, w) /\
    Forall2 (fun task_path task_result =>
               task_result_sound chat (load_task task_path) task_result)
            (firstn (cap eval_files num_tasks) eval_files)
            (Results.tasks results).
Proof.
  rewrite run_evaluation_cap.
  destruct (run_tasks_full path stem load_task chat
              (firstn (cap eval_files num_tasks) eval_files)
              fresh_world no_results)
    as (new & results & w & snaps & Hrun & Htasks & Hnew & _).
  exists results, w. split; [exact Hrun |].
  cbn [no_results Results.tasks app] in Htasks. rewrite Htasks. exact Hnew.
Qed.

(** X15: a run calls the model exactly once per test case declared by the
    tasks it processes, no more (no retry) and no less; that number is also
    the total it returns. *)
Theorem one_call_per_test_case (eval_files : list path)
    (num_tasks : option Z) :
  exists results w,
    run_evaluation path stem load_task chat eval_files num_tasks
    = Ok (results, w) /\
    calls w
    = declared_cases load_task
        (firstn (cap eval_files num_tasks) eval_files) /\
    Results.total results = Z.of_nat (calls w).
Proof.
  rewrite run_evaluation_cap.
  destruct (run_tasks_full path stem load_task chat
              (firstn (cap eval_files num_tasks) eval_files)
              fresh_world no_results)
    as (new & results & w & snaps & Hrun & _ & _ & Htotal & Hcalls & _).
  exists results, w. split; [exact Hrun |].
  cbn [fresh_world no_results calls Results.total] in Htotal, Hcalls.
  split; [exact Hcalls |]. rewrite Htotal, Hcalls. lia.
Qed.

(** X16: the partial file is a faithful history: the [k]-th content
    written to it by the run over all the files is exactly what the run
    capped at [k] tasks returns, and the capped run writes the first [k]
    contents. *)
Theorem partial_file_history (eval_files : list path) (k : nat)
    (results : Results.t) (w : world) :
  run_evaluation path stem load_task chat eval_files None
  = Ok (results, w) ->
  (1 <= k <= length eval_files)%nat ->
  exists results_k w_k,
    run_evaluation path stem load_task chat eval_files (Some (Z.of_nat k))
    = Ok (results_k, w_k) /\
    nth_error (partial_file w) (k - 1) = Some results_k /\
    partial_file w_k = firstn k (partial_file w).
Proof.
  intros Hall Hk. rewrite run_evaluation_cap in *.
  assert (Hcap : cap eval_files (Some (Z.of_nat k)) = k).
  { unfold cap.
    assert (E0 : (Z.of_nat k =? 0) = false) by (apply Z.eqb_neq; lia).
    assert (E1 : (0 <? Z.of_nat k) = true) by (apply Z.ltb_lt; lia).
    rewrite E0, E1, Nat2Z.id. lia. }
  rewrite Hcap. cbn [cap] in Hall. rewrite firstn_all in Hall.
  rewrite <- (firstn_skipn k eval_files) in Hall at 1.
  rewrite run_tasks_app in Hall.
  destruct (run_tasks_full path stem load_task chat (firstn k eval_files)
              fresh_world no_results)
    as (new & rk & wk & snaps & Hrun & _ & _ & _ & _ & Hpart & Hlen & Hlast).
  rewrite Hrun in Hall. cbn [bind] in Hall.
  destruct (run_tasks_full path stem load_task chat (skipn k eval_files)
              wk rk)
    as (new2 & r2 & w2 & snaps2 & Hrun2 & _ & _ & _ & _ & Hpart2 & _).
  rewrite Hrun2 in Hall. injection Hall as -> ->.
  exists rk, wk. split; [exact Hrun |].
  cbn [fresh_world partial_file app] in Hpart.
  rewrite length_firstn in Hlen.
  assert (Hlenk : length snaps = k) by lia.
  destruct Hlast as [before Hbefore].
  { intros E. apply (f_equal (@length path)) in E.
    rewrite length_firstn in E. cbn [length] in E. lia. }
  rewrite Hpart2, Hpart. split.
  - rewrite Hbefore, <- app_assoc.
    assert (Hb : length before = (k - 1)%nat).
    { rewrite Hbefore, length_app in Hlenk. cbn [length] in Hlenk. lia. }
    rewrite nth_error_app2 by lia. rewrite Hb, Nat.sub_diag. reflexivity.
  - rewrite firstn_app, <- Hlenk, firstn_all, Nat.sub_diag.
    cbn [firstn]. rewrite app_nil_r. reflexivity.
Qed.

(** X17: a negative cap [-m] leaves out the last [m] files, as the slice
    [eval_files[:num_tasks]] does; when [m] is at least the number of files,
    no task is run, nothing is written and the counts are zero. *)
Theorem negative_cap (eval_files : list path) (n : Z) :
  n < 0 ->
  run_evaluation path stem load_task chat eval_files (Some n)
  = run_tasks path stem load_task chat fresh_world no_results
      (firstn (length eval_files - Z.to_nat (- n)) eval_files) /\
  ((length eval_files <= Z.to_nat (- n))%nat ->
   run_evaluation path stem load_task chat eval_files (Some n)
   = Ok (no_results, fresh_world)).
Proof.
  intros Hn.
  assert (Hcap : cap eval_files (Some n)
                 = (length eval_files - Z.to_nat (- n))%nat).
  { unfold cap.
    assert (E0 : (n =? 0) = false) by (apply Z.eqb_neq; lia).
    assert (E1 : (0 <? n) = false) by (apply Z.ltb_ge; lia).
    rewrite E0, E1. reflexivity. }
  rewrite run_evaluation_cap, Hcap. split; [reflexivity |].
  intros Hle.
  replace (length eval_files - Z.to_nat (- n))%nat with 0%nat by lia.
  reflexivity.
Qed.

(** X18: when the run [main] starts returns its results, it has run the
    first five files at most; [main] then writes
    [evaluation_results.json], with these results, exactly when one of
    these files declares a test case, and otherwise (no file at all, for
    one) the accuracy division by a zero total raises, the handler of
    [main] runs and the final file is not written. *)
Theorem main_final_file (eval_files : list path) (results : Results.t)
    (w : world) :
  run_evaluation path stem load_task chat eval_files (Some 5)
  = Ok (results, w) ->
  length (Results.tasks results) = Nat.min 5 (length eval_files) /\
  (main path stem load_task chat eval_files = FinalWritten results w <->
   exists p, In p (firstn 5 eval_files) /\ Task.test (load_task p) <> []) /\
  (main path stem load_task chat eval_files = ZeroDivision results w <->
   forall p, In p (firstn 5 eval_files) -> Task.test (load_task p) = []).
Proof.
  intros Hret. unfold main. rewrite Hret.
  rewrite run_evaluation_cap in Hret.
  assert (Hcap : cap eval_files (Some 5) = Nat.min 5 (length eval_files))
    by reflexivity.
  rewrite Hcap, firstn_min in Hret.
  destruct (run_tasks_full path stem load_task chat (firstn 5 eval_files)
              fresh_world no_results)
    as (new & results' & w' & snaps & Hrun & Htasks & Hnew & Htotal & _).
  rewrite Hrun in Hret. injection Hret as -> ->.
  cbn [no_results Results.tasks Results.total app] in Htasks, Htotal.
  split.
  { rewrite Htasks. apply Forall2_length in Hnew. rewrite <- Hnew.
    apply length_firstn. }
  destruct (Results.total results =? 0) eqn:E.
  - apply Z.eqb_eq in E.
    assert (Hz : declared_cases load_task (firstn 5 eval_files) = 0%nat)
      by lia.
    split; split.
    + discriminate.
    + intros Hex. apply declared_cases_pos in Hex. congruence.
    + intros _. apply declared_cases_zero. exact Hz.
    + reflexivity.
  - apply Z.eqb_neq in E.
    assert (Hnz : declared_cases load_task (firstn 5 eval_files) <> 0%nat)
      by lia.
    split; split.
    + intros _. apply declared_cases_pos. exact Hnz.
    + reflexivity.
    + discriminate.
    + intros Hall. apply declared_cases_zero in Hall. congruence.
Qed.

End DriverTheorems.

(** ** The driver's further theorems on the sample task *)

Lemma right_answer_recorded_witness :
  run_test_cases (U := latin1) answers_expected sample_task 0
    sample_task_result 0 [sample_case]
  = run_test_cases (U := latin1) answers_expected sample_task 1
      {| TaskResult.task_id := TaskResult.task_id sample_task_result;
         TaskResult.correct := TaskResult.correct sample_task_result + 1;
         TaskResult.total := TaskResult.total sample_task_result;
         TaskResult.details :=
           TaskResult.details sample_task_result ++
           [{| Detail.test_case := 0 + 1;
               Detail.correct := true;
               Detail.model_output := Pair.output sample_case;
               Detail.expected_output := Pair.output sample_case |}] |}
      (0 + 1) [].
Proof.
  apply (right_answer_recorded (U := latin1) answers_expected sample_task 0
           sample_task_result 0 sample_case []).
  - discriminate.
  - repeat constructor; try discriminate; lia.
  - reflexivity.
Defined.

Lemma digitless_answer_recorded_witness :
  run_test_cases (U := latin1) answers_no_idea sample_task 0
    sample_task_result 0 [sample_case]
  = run_test_cases (U := latin1) answers_no_idea sample_task 1
      {| TaskResult.task_id := TaskResult.task_id sample_task_result;
         TaskResult.correct := TaskResult.correct sample_task_result;
         TaskResult.total := TaskResult.total sample_task_result;
         TaskResult.details :=
           TaskResult.details sample_task_result ++
           [{| Detail.test_case := 0 + 1;
               Detail.correct := false;
               Detail.model_output := [];
               Detail.expected_output := Pair.output sample_case |}] |}
      (0 + 1) [].
Proof.
  apply (digitless_answer_recorded (U := latin1) answers_no_idea sample_task 0
           sample_task_result 0 sample_case [] (lit "no idea")).
  - discriminate.
  - repeat constructor.
  - reflexivity.
Defined.

Lemma empty_content_skipped_witness :
  run_test_cases (U := latin1) answers_nothing sample_task 0
    sample_task_result 0 [sample_case]
  = run_test_cases (U := latin1) answers_nothing sample_task 1
      sample_task_result (0 + 1) [].
Proof.
  apply (empty_content_skipped (U := latin1) answers_nothing sample_task 0
           sample_task_result 0 sample_case []).
  reflexivity.
Defined.

(** The run over two copies of the sample file, the first call timing
    out: what it returns and what it leaves. *)
Definition sample_final : Results.t * world :=
  Eval vm_compute in
    match run_evaluation (U := latin1) unit (fun _ => lit "sample")
            (fun _ => sample_task) first_call_times_out [tt; tt] None with
    | Ok final => final
    | Raise _ => (no_results, fresh_world)
    end.

Lemma partial_file_history_witness :
  exists results_k w_k,
    run_evaluation (U := latin1) unit (fun _ => lit "sample")
      (fun _ => sample_task) first_call_times_out [tt; tt]
      (Some (Z.of_nat 1))
    = Ok (results_k, w_k) /\
    nth_error (partial_file (snd sample_final)) (1 - 1) = Some results_k /\
    partial_file w_k = firstn 1 (partial_file (snd sample_final)).
Proof.
  apply (partial_file_history (U := latin1) unit (fun _ => lit "sample")
           (fun _ => sample_task) first_call_times_out [tt; tt] 1
           (fst sample_final) (snd sample_final)).
  - vm_compute. reflexivity.
  - cbn [length]. lia.
Defined.

Lemma negative_cap_witness :
  run_evaluation (U := latin1) unit (fun _ => lit "sample")
    (fun _ => sample_task) first_call_times_out [tt; tt] (Some (-1))
  = run_tasks (U := latin1) unit (fun _ => lit "sample")
      (fun _ => sample_task) first_call_times_out fresh_world no_results
      (firstn (length [tt; tt] - Z.to_nat (- -1)) [tt; tt]) /\
  ((length [tt; tt] <= Z.to_nat (- -1))%nat ->
   run_evaluation (U := latin1) unit (fun _ => lit "sample")
     (fun _ => sample_task) first_call_times_out [tt; tt] (Some (-1))
   = Ok (no_results, fresh_world)).
Proof.
  apply (negative_cap (U := latin1) unit (fun _ => lit "sample")
           (fun _ => sample_task) first_call_times_out [tt; tt] (-1)).
  lia.
Defined.

(** With no file discovered [main] does not write the final file; with
    the sample file it does. *)
Example main_no_file :
  main (U := latin1) unit (fun _ => lit "sample") (fun _ => sample_task)
    first_call_times_out []
  = ZeroDivision no_results fresh_world.
Proof. reflexivity. Qed.

Example main_sample_file :
  exists results w,
    main (U := latin1) unit (fun _ => lit "sample") (fun _ => sample_task)
      answers_expected [tt]
    = FinalWritten results w /\
    Results.correct results = 1 /\ Results.total results = 1.
Proof. eexists. eexists. split; [vm_compute; reflexivity | split; reflexivity]. Qed.

(** The run [main] starts on the sample file, with a model that answers
    the expected grid. *)
Definition sample_main_run : Results.t * world :=
  Eval vm_compute in
    match run_evaluation (U := latin1) unit (fun _ => lit "sample")
            (fun _ => sample_task) answers_expected [tt] (Some 5) with
    | Ok final => final
    | Raise _ => (no_results, fresh_world)
    end.

Lemma main_final_file_witness :
  length (Results.tasks (fst sample_main_run)) = Nat.min 5 (length [tt]) /\
  (main (U := latin1) unit (fun _ => lit "sample") (fun _ => sample_task)
     answers_expected [tt]
   = FinalWritten (fst sample_main_run) (snd sample_main_run) <->
   exists p, In p (firstn 5 [tt]) /\ Task.test sample_task <> []) /\
  (main (U := latin1) unit (fun _ => lit "sample") (fun _ => sample_task)
     answers_expected [tt]
   = ZeroDivision (fst sample_main_run) (snd sample_main_run) <->
   forall p, In p (firstn 5 [tt]) -> Task.test sample_task = []).
Proof.
  apply (main_final_file (U := latin1) unit (fun _ => lit "sample")
           (fun _ => sample_task) answers_expected [tt]
           (fst sample_main_run) (snd sample_main_run)).
  vm_compute. reflexivity.
Defined.

(** * The first block of digit lines, and the skipped test case *)

Section BlockTheorem.
Context {U : Unicode}.

Lemma parse_body_framed (pre block post : list str) :
  framed_block pre block post ->
  parse_body (join [LF] (pre ++ block ++ post)) = build_grid [] block.
Proof.
  intros (Hlf & Hpre & Hblock & Hne & Hpost). unfold parse_body.
  rewrite split_lines_join; [| | exact Hlf].
  - rewrite collect_lines_block by assumption. reflexivity.
  - destruct pre; [destruct block; [congruence | discriminate] | discriminate].
Qed.

Lemma framed_block_alone (pre block post : list str) :
  framed_block pre block post -> framed_block [] block [].
Proof.
  intros (Hlf & _ & Hblock & Hne & _).
  apply Forall_app in Hlf as [_ Hlf]. apply Forall_app in Hlf as [Hlf _].
  unfold framed_block. cbn [app]. rewrite app_nil_r.
  split; [exact Hlf |]. split; [constructor |].
  split; [exact Hblock |]. split; [exact Hne | left; reflexivity].
Qed.

Lemma rows_of_decimal_lines (block : list str) :
  Forall (fun l => forall c, In c l -> isdigit c = true -> decimal c <> None)
         block ->
  exists g, Forall2 (fun l r => row_of_line l = Ok r) block g.
Proof.
  induction 1 as [| l block Hl _ [g IH]]; [exists []; constructor |].
  destruct (row_of_line l) as [r | e] eqn:E.
  - exists (r :: g). constructor; assumption.
  - exfalso.
    assert (Hex : exists e', row_of_line l = Raise e') by eauto.
    apply row_of_line_raise in Hex as (c & Hc & Hdig & Hdec).
    exact (Hl c Hc Hdig Hdec).
Qed.

End BlockTheorem.

(** C4, as the claim states it, fails: around a single contiguous block of
    two digit lines, with prose without digit before and after, decoding
    returns the empty grid and not the block when a line of the block holds
    a digit that [int()] rejects (here a superscript two). *)
Lemma parse_block_with_bad_digit :
  framed_block (U := latin1) [lit "Here is the grid:"]
    [lit "1 2"; lit "3 " ++ [178%N]] [lit "thanks"] /\
  parse_model_output (U := latin1)
    (join [LF] ([lit "Here is the grid:"]
                ++ [lit "1 2"; lit "3 " ++ [178%N]] ++ [lit "thanks"]))
  = Ok [].
Proof.
  split; [| reflexivity].
  repeat split; try (repeat constructor; fail).
  - repeat constructor; cbv; intuition discriminate.
  - discriminate.
  - right. exists (lit "thanks"), []. split; reflexivity.
Qed.

(** C4 (amended): the scan keeps the first contiguous block of lines that
    have a digit: it skips the lines without digit, then takes lines as
    long as they have one.  So for a text made of lines without digit, then
    a block of lines with a digit, then nothing or a line without digit
    followed by any lines at all, decoding reads the block alone: the lines
    before it and everything after the interruption are ignored.  When
    every digit of the block is a decimal and no line of the block has more
    than [safe_digits] characters, what is returned is the block as a grid:
    one row per line, in order, holding the numbers of the line.  When a
    line of the block holds a digit that [int()] rejects, what is returned
    is the empty grid. *)
Theorem parse_first_block {U : Unicode} :
  (forall output,
     collect_lines [] (split_lines output) =
     take_while has_digit
       (drop_while (fun l => negb (has_digit l)) (split_lines output))) /\
  (forall pre block post,
     framed_block pre block post ->
     parse_model_output (join [LF] (pre ++ block ++ post))
     = parse_model_output (join [LF] block) /\
     (Forall (fun l => forall c, In c l -> isdigit c = true ->
                                 decimal c <> None) block ->
      Forall (fun l => (length l <= safe_digits)%nat) block ->
      exists g,
        parse_model_output (join [LF] (pre ++ block ++ post)) = Ok g /\
        Forall2 (fun l r => row_of_line l = Ok r) block g) /\
     ((exists l c, In l block /\ In c l /\
                   isdigit c = true /\ decimal c = None) ->
      parse_model_output (join [LF] (pre ++ block ++ post)) = Ok [])).
Proof.
  split; [intros output; apply collect_lines_first_block |].
  intros pre block post Hframe.
  pose proof (parse_body_framed pre block post Hframe) as Hbody.
  pose proof (parse_body_framed [] block []
                (framed_block_alone pre block post Hframe)) as Halone.
  cbn [app] in Halone. rewrite app_nil_r in Halone.
  unfold parse_model_output. rewrite Hbody, Halone.
  split; [reflexivity |]. split.
  - intros Hdec _. destruct (rows_of_decimal_lines block Hdec) as [g Hg].
    exists g. split; [| exact Hg].
    destruct Hframe as (_ & _ & Hblock & _).
    rewrite (build_grid_block block g [] Hblock Hg). reflexivity.
  - intros (l & c & Hl & Hc & Hdig & Hdec).
    assert (Hrow : exists e, row_of_line l = Raise e).
    { apply row_of_line_raise. exists c. auto. }
    destruct Hrow as [e He].
    assert (Hex : exists e', build_grid [] block = Raise e').
    { apply build_grid_raise. exists l, e. auto. }
    destruct Hex as [e' ->]. reflexivity.
Qed.

(** Every digit of a given line is a decimal. *)
Ltac decimal_line :=
  let c := fresh "c" in
  let Hc := fresh "Hc" in
  let Hdig := fresh "Hdig" in
  intros c Hc Hdig; cbv in Hc;
  repeat (destruct Hc as [<- | Hc];
          [first [ vm_compute in Hdig; discriminate Hdig
                 | vm_compute; discriminate ] |]);
  contradiction.

Lemma parse_first_block_witness :
  exists g,
    parse_model_output (U := latin1)
      (join [LF] ([lit "Here you go:"] ++ [lit "| 1, 2 |"; lit "3 4"]
                  ++ [lit "(aside)"; lit "5 6"]))
    = Ok g /\
    Forall2 (fun l r => row_of_line (U := latin1) l = Ok r)
      [lit "| 1, 2 |"; lit "3 4"] g.
Proof.
  apply (proj2 (parse_first_block (U := latin1))
           [lit "Here you go:"] [lit "| 1, 2 |"; lit "3 4"]
           [lit "(aside)"; lit "5 6"]).
  - repeat split; try (repeat constructor; fail).
    + repeat constructor; cbv; intuition discriminate.
    + discriminate.
    + right. exists (lit "(aside)"), [lit "5 6"]. split; reflexivity.
  - constructor; [decimal_line |]. constructor; [decimal_line | constructor].
  - repeat constructor; cbv; lia.
Defined.

Section SkippedCase.
Context {U : Unicode}.
Variable path : Type.
Variable stem : path -> str.
Variable load_task : path -> Task.t.
Variable chat : nat -> str -> call_outcome.

Lemma run_test_cases_app (task : Task.t) (cases cases' : list Pair.t)
    (n : nat) (task_result : TaskResult.t) (test_idx : Z) :
  run_test_cases chat task n task_result test_idx (cases ++ cases')
  = '(n1, task_result1) <-
      run_test_cases chat task n task_result test_idx cases ;;
    run_test_cases chat task n1 task_result1
      (test_idx + Z.of_nat (length cases)) cases'.
Proof.
  revert n task_result test_idx.
  induction cases as [| test_case rest IH]; intros n task_result test_idx.
  - cbn [app run_test_cases bind length]. rewrite Z.add_0_r. reflexivity.
  - assert (Hidx : test_idx + Z.of_nat (length (test_case :: rest))
                   = test_idx + 1 + Z.of_nat (length rest))
      by (cbn [length]; lia).
    rewrite Hidx. cbn [app run_test_cases].
    destruct (is_nil (call_model_with_timeout (chat n)
                        (create_prompt task (Pair.input test_case)))).
    + apply IH.
    + destruct (parse_model_output
                  (call_model_with_timeout (chat n)
                     (create_prompt task (Pair.input test_case))))
        as [parsed | e]; [| reflexivity].
      cbn [bind]. apply IH.
Qed.

(** The details of an index inside the range of the test cases read. *)
Lemma detail_sound_range (task : Task.t) (cases : list Pair.t)
    (d : Detail.t) :
  detail_sound chat task cases d ->
  1 <= Detail.test_case d <= Z.of_nat (length cases).
Proof.
  intros (Hone & test_case & n & Hnth & _). split; [exact Hone |].
  assert (Hlt : (Z.to_nat (Detail.test_case d - 1) < length cases)%nat).
  { apply nth_error_Some. rewrite Hnth. discriminate. }
  lia.
Qed.

(** One task in which the model call of the test case after [before] is
    skipped. *)
Lemma run_task_skipped (w : world) (results : Results.t) (task_path : path)
    (before after : list Pair.t) (test_case : Pair.t) :
  Task.test (load_task task_path) = before ++ test_case :: after ->
  call_model_with_timeout (chat (calls w + length before))
    (create_prompt (load_task task_path) (Pair.input test_case)) = [] ->
  exists task_result w',
    run_task path stem load_task chat w results task_path
    = Ok (add_task_result results task_result, w') /\
    partial_file w'
    = partial_file w ++ [add_task_result results task_result] /\
    TaskResult.total task_result
    = Z.of_nat (length (Task.test (load_task task_path))) /\
    (forall d, In d (TaskResult.details task_result) ->
               Detail.test_case d <> Z.of_nat (length before) + 1) /\
    (length (TaskResult.details task_result)
     <= length before + length after)%nat /\
    0 <= TaskResult.correct task_result
      <= Z.of_nat (length before + length after).
Proof.
  intros Htest Hskip.
  set (task := load_task task_path) in *.
  set (tr0 := {| TaskResult.task_id := stem task_path;
                 TaskResult.correct := 0;
                 TaskResult.total := Z.of_nat (length (Task.test task));
                 TaskResult.details := [] |}).
  assert (Hloop : exists n2 tr2,
    run_test_cases chat task (calls w) tr0 0 (before ++ test_case :: after)
    = Ok (n2, tr2) /\
    TaskResult.total tr2 = Z.of_nat (length (Task.test task)) /\
    (forall d, In d (TaskResult.details tr2) ->
               Detail.test_case d <> Z.of_nat (length before) + 1) /\
    (length (TaskResult.details tr2) <= length before + length after)%nat /\
    0 <= TaskResult.correct tr2
      <= Z.of_nat (length before + length after)).
  { rewrite run_test_cases_app.
    (* the cases before the skipped one *)
    destruct (run_test_cases_details chat task before [] (calls w) tr0)
      as (tr1 & new1 & Hrun1 & _ & Htot1 & Hdet1 & _ & Hall1 & _).
    cbn [length app] in Hrun1, Hall1. change (Z.of_nat 0) with 0 in Hrun1.
    destruct (run_test_cases_counts chat task before (calls w) tr0 0)
      as (n1' & tr1' & Hc1 & _ & _ & _ & Hcor1 & Hlen1).
    rewrite Hrun1 in Hc1. injection Hc1 as <- <-.
    rewrite Hrun1. cbn [bind]. rewrite Z.add_0_l.
    (* the skipped case, then the cases after it *)
    rewrite (run_test_cases_skip chat task _ tr1 _ test_case after Hskip).
    assert (Hidx : Z.of_nat (length before) + 1
                   = Z.of_nat (length (before ++ [test_case])))
      by (rewrite length_app; cbn [length]; lia).
    rewrite Hidx.
    destruct (run_test_cases_details chat task after (before ++ [test_case])
                (S (calls w + length before)) tr1)
      as (tr2 & new2 & Hrun2 & _ & Htot2 & Hdet2 & _ & Hall2 & _).
    destruct (run_test_cases_counts chat task after
                (S (calls w + length before)) tr1
                (Z.of_nat (length (before ++ [test_case]))))
      as (n2' & tr2' & Hc2 & _ & _ & _ & Hcor2 & Hlen2).
    rewrite Hrun2 in Hc2. injection Hc2 as <- <-.
    rewrite Hrun2. eexists. exists tr2. split; [reflexivity |].
    cbn [TaskResult.details TaskResult.correct TaskResult.total tr0 length]
      in Hdet1, Hcor1, Hlen1, Htot1.
    split; [rewrite Htot2, Htot1; reflexivity |].
    split; [| split; [| lia]].
    - intros d Hd. rewrite Hdet2, Hdet1 in Hd. cbn [app] in Hd.
      apply in_app_or in Hd as [Hd | Hd].
      + rewrite Forall_forall in Hall1. destruct (Hall1 d Hd) as [_ Hs].
        apply detail_sound_range in Hs. lia.
      + rewrite Forall_forall in Hall2. destruct (Hall2 d Hd) as [Hlt _].
        rewrite <- Hidx in Hlt. lia.
    - lia. }
  destruct Hloop as (n2 & tr2 & Hloop & Htot & Hnone & Hlen & Hcor).
  rewrite <- Htest in Hloop.
  exists tr2. eexists. unfold run_task. cbv zeta. fold task. fold tr0.
  rewrite Hloop. cbn [bind]. split; [reflexivity |].
  cbn [partial_file]. repeat split; assumption || apply Hcor.
Qed.

End SkippedCase.

(** C5 (amended): when the model call of a test case times out or fails,
    the loop goes on with the next test case from the same task result: no
    outcome is appended and the correct count is not incremented.  The task
    then completes with no detail numbered as the skipped case, with fewer
    details and fewer correct answers than declared test cases, and with a
    total equal to the number of declared test cases, which is what the
    total of the run grows by: the skipped case stays counted in the total
    of its task and of the run. *)
Theorem skipped_test_case {U : Unicode} (path : Type) (stem : path -> str)
    (load_task : path -> Task.t) (chat : nat -> str -> call_outcome)
    (w : world) (results : Results.t) (task_path : path)
    (before after : list Pair.t) (test_case : Pair.t) :
  Task.test (load_task task_path) = before ++ test_case :: after ->
  chat (calls w + length before)%nat
    (create_prompt (load_task task_path) (Pair.input test_case)) = TimedOut \/
  chat (calls w + length before)%nat
    (create_prompt (load_task task_path) (Pair.input test_case)) = Failed ->
  (forall task_result,
     run_test_cases chat (load_task task_path) (calls w + length before)%nat
       task_result (Z.of_nat (length before)) (test_case :: after)
     = run_test_cases chat (load_task task_path)
         (S (calls w + length before)%nat) task_result
         (Z.of_nat (length before) + 1) after) /\
  exists task_result w',
    run_task path stem load_task chat w results task_path
    = Ok (add_task_result results task_result, w') /\
    partial_file w'
    = partial_file w ++ [add_task_result results task_result] /\
    (forall d, In d (TaskResult.details task_result) ->
               Detail.test_case d <> Z.of_nat (length before) + 1) /\
    (length (TaskResult.details task_result)
     < length (Task.test (load_task task_path)))%nat /\
    0 <= TaskResult.correct task_result
      < Z.of_nat (length (Task.test (load_task task_path))) /\
    TaskResult.total task_result
    = Z.of_nat (length (Task.test (load_task task_path))) /\
    Results.total (add_task_result results task_result)
    = Results.total results
      + Z.of_nat (length (Task.test (load_task task_path))) /\
    Results.correct (add_task_result results task_result)
    < Results.correct results
      + Z.of_nat (length (Task.test (load_task task_path))).
Proof.
  intros Htest Hchat.
  pose proof (call_model_with_timeout_skipped chat _ _ Hchat) as Hskip.
  split.
  - intros task_result. apply run_test_cases_skip. exact Hskip.
  - destruct (run_task_skipped path stem load_task chat w results task_path
                before after test_case Htest Hskip)
      as (tr & w' & Hrun & Hpart & Htot & Hnone & Hlen & Hcor).
    assert (Hdecl : length (Task.test (load_task task_path))
                    = S (length before + length after)).
    { rewrite Htest, length_app. cbn [length]. lia. }
    exists tr, w'. cbn [add_task_result Results.total Results.correct].
    repeat split; try assumption; try lia.
Qed.

Lemma skipped_test_case_witness :
  (forall task_result,
     run_test_cases (U := latin1) first_call_times_out two_case_task
       (calls fresh_world + length (@nil Pair.t))%nat task_result
       (Z.of_nat (length (@nil Pair.t))) [sample_case; sample_case]
     = run_test_cases (U := latin1) first_call_times_out two_case_task
         (S (calls fresh_world + length (@nil Pair.t))%nat) task_result
         (Z.of_nat (length (@nil Pair.t)) + 1) [sample_case]) /\
  exists task_result w',
    run_task (U := latin1) unit (fun _ => lit "sample")
      (fun _ => two_case_task) first_call_times_out fresh_world no_results tt
    = Ok (add_task_result no_results task_result, w') /\
    partial_file w'
    = partial_file fresh_world ++ [add_task_result no_results task_result] /\
    (forall d, In d (TaskResult.details task_result) ->
               Detail.test_case d <> Z.of_nat (length (@nil Pair.t)) + 1) /\
    (length (TaskResult.details task_result)
     < length (Task.test two_case_task))%nat /\
    0 <= TaskResult.correct task_result
      < Z.of_nat (length (Task.test two_case_task)) /\
    TaskResult.total task_result
    = Z.of_nat (length (Task.test two_case_task)) /\
    Results.total (add_task_result no_results task_result)
    = Results.total no_results
      + Z.of_nat (length (Task.test two_case_task)) /\
    Results.correct (add_task_result no_results task_result)
    < Results.correct no_results
      + Z.of_nat (length (Task.test two_case_task)).
Proof.
  apply (skipped_test_case (U := latin1) unit (fun _ => lit "sample")
           (fun _ => two_case_task) first_call_times_out fresh_world
           no_results tt [] [sample_case] sample_case).
  - reflexivity.
  - left. reflexivity.
Defined.

(** The task result of the witness: the second test case is recorded as
    number 2, the first has no detail, the total is 2. *)
Example skipped_then_answered :
  run_task (U := latin1) unit (fun _ => lit "sample")
    (fun _ => two_case_task) first_call_times_out fresh_world no_results tt
  = Ok (add_task_result no_results
          {| TaskResult.task_id := lit "sample";
             TaskResult.correct := 1; TaskResult.total := 2;
             TaskResult.details :=
               [{| Detail.test_case := 2; Detail.correct := true;
                   Detail.model_output := [[0; 0]; [1; 1]];
                   Detail.expected_output := [[0; 0]; [1; 1]] |}] |},
        {| calls := 2;
           partial_file :=
             [add_task_result no_results
                {| TaskResult.task_id := lit "sample";
                   TaskResult.correct := 1; TaskResult.total := 2;
                   TaskResult.details :=
                     [{| Detail.test_case := 2; Detail.correct := true;
                         Detail.model_output := [[0; 0]; [1; 1]];
                         Detail.expected_output := [[0; 0]; [1; 1]] |}] |}]
        |}).
Proof. vm_compute. reflexivity. Qed.
